(** * jobhunt: the text filter, the deduplicator, the tracker store,
      the response splitter and the LaTeX driver, embedded from the Python
      sources and checked against the specification.

    Conventions of the embedding.
    - A Python [str] is a list of characters.  Characters are the code
      points 0..255 (the Latin-1 block of Unicode); [str.lower],
      [str.isspace], and the regex classes [\d] and [\s] are given on these
      code points exactly as CPython defines them there.
    - Integers produced by [int(...)] are unbounded naturals ([N]).
    - A pandas DataFrame is the list of its rows, in index order; a missing
      cell (NaN) is a value of its own.
    - External services (the Notion client, pdflatex, the file system) are
      explicit parameters whose answers the functions thread through. *)

From Stdlib Require Import NArith ZArith Ascii String List Bool Lia.
From stdpp Require Import base option list strings gmap.

Abbreviation str := (list ascii).

(** Literal of the source, as a [str]. *)
Definition txt (s : string) : str := list_ascii_of_string s.

(* ===================================================================== *)
(** * Characters and strings (CPython's [str] methods used by the sources) *)
(* ===================================================================== *)

Module Py.

Definition ord (c : ascii) : N := N_of_ascii c.

Definition between (lo hi : N) (c : ascii) : bool :=
  ((lo <=? ord c) && (ord c <=? hi))%N.

(** [\d] : decimal digits; below U+0100 these are '0'..'9'. *)
Definition isdigit (c : ascii) : bool := between 48 57 c.

(** [str.isspace] / [\s] : TAB..CR, FS..US, SPACE, NEL (0x85), NBSP (0xA0). *)
Definition isspace (c : ascii) : bool :=
  between 9 13 c || between 28 32 c || (ord c =? 133)%N || (ord c =? 160)%N.

(** [str.lower] on one character: 'A'..'Z' and the Latin-1 capitals
    (0xC0..0xDE but for the multiplication sign 0xD7) move up by 32. *)
Definition lower_char (c : ascii) : ascii :=
  if between 65 90 c || (between 192 222 c && negb (ord c =? 215)%N)
  then ascii_of_N (ord c + 32) else c.

Definition lower (s : str) : str := map lower_char s.

(** [s.startswith(p)] *)
Fixpoint startswith (p s : str) : bool :=
  match p, s with
  | [], _ => true
  | a :: p', b :: s' => Ascii.eqb a b && startswith p' s'
  | _ :: _, [] => false
  end.

(** [needle in hay] *)
Fixpoint contains (needle hay : str) : bool :=
  startswith needle hay ||
  match hay with
  | [] => false
  | _ :: hay' => contains needle hay'
  end.

(** [hay.find(needle)]: index of the leftmost occurrence. *)
Fixpoint find (needle hay : str) : option nat :=
  if startswith needle hay then Some 0
  else match hay with
       | [] => None
       | _ :: hay' => S <$> find needle hay'
       end.

(** [s.lstrip()], [s.rstrip()], [s.strip()] *)
Fixpoint lstrip (s : str) : str :=
  match s with
  | c :: s' => if isspace c then lstrip s' else s
  | [] => []
  end.

Definition rstrip (s : str) : str := rev (lstrip (rev s)).

Definition strip (s : str) : str := rstrip (lstrip s).

(** [hay.split(sep, 1)] for a separator that occurs in [hay]: the text
    before the leftmost occurrence and the text after it. *)
Definition split_once (sep hay : str) : option (str * str) :=
  match find sep hay with
  | Some i => Some (take i hay, drop (i + length sep) hay)
  | None => None
  end.

(** [int(s)] for a string of decimal digits. *)
Definition digit_val (c : ascii) : N := (ord c - 48)%N.

Definition int (s : str) : N :=
  fold_left (fun acc c => (10 * acc + digit_val c)%N) s 0%N.

End Py.

(* ===================================================================== *)
(** * A backtracking matcher for the regular expressions of scraper.py *)
(* ===================================================================== *)

Module Re.

(** Character tests.  [Lit c] is a literal under [re.IGNORECASE]. *)
Inductive cls := Digit | Space | Lit (c : ascii).

Definition cls_match (k : cls) (x : ascii) : bool :=
  match k with
  | Digit => Py.isdigit x
  | Space => Py.isspace x
  | Lit c => Ascii.eqb (Py.lower_char x) (Py.lower_char c)
  end.

(** The fragment of Python's [re] syntax the three patterns use.  The
    quantifiers are the greedy ones and apply to a single character test. *)
Inductive re :=
| Eps
| Chr (k : cls)
| Star (k : cls)
| Plus (k : cls)
| Opt (r : re)
| Alt (r1 r2 : re)
| Seq (r1 r2 : re)
| Grp (r : re).

(** Concatenation of the items of a pattern, left to right. *)
Definition cat (rs : list re) : re := foldr Seq Eps rs.

(** A literal word. *)
Fixpoint word (w : str) : re :=
  match w with
  | [] => Eps
  | c :: w' => Seq (Chr (Lit c)) (word w')
  end.

Section Matcher.
Context {R : Type}.

(** Greedy [k*]: take as many characters as possible, then give them back
    one at a time while the rest of the pattern fails. *)
Fixpoint star (k : cls) (s : str) (cont : str -> option R) : option R :=
  match s with
  | x :: s' =>
      if cls_match k x then
        match star k s' cont with
        | Some r => Some r
        | None => cont s
        end
      else cont s
  | [] => cont s
  end.

(** [run r s caps cont]: match [r] at the head of [s]; [caps] are the
    groups closed so far; [cont] is the rest of the pattern.  The first
    alternative that lets the whole pattern succeed wins. *)
Fixpoint run (r : re) (s : str) (caps : list str)
    (cont : str -> list str -> option R) : option R :=
  match r with
  | Eps => cont s caps
  | Chr k =>
      match s with
      | x :: s' => if cls_match k x then cont s' caps else None
      | [] => None
      end
  | Star k => star k s (fun s' => cont s' caps)
  | Plus k =>
      match s with
      | x :: s' =>
          if cls_match k x then star k s' (fun s'' => cont s'' caps) else None
      | [] => None
      end
  | Opt r1 =>
      match run r1 s caps cont with
      | Some res => Some res
      | None => cont s caps
      end
  | Alt r1 r2 =>
      match run r1 s caps cont with
      | Some res => Some res
      | None => run r2 s caps cont
      end
  | Seq r1 r2 => run r1 s caps (fun s' caps' => run r2 s' caps' cont)
  | Grp r1 =>
      run r1 s caps
        (fun s' caps' => cont s' (caps' ++ [take (length s - length s') s]))
  end.
End Matcher.

(** [pattern.match(s)]: the groups of the match and its length. *)
Definition match_here (r : re) (s : str) : option (list str * nat) :=
  run r s [] (fun s' caps => Some (caps, length s - length s')).

(** [re.finditer(r, s)]: the groups of the successive non-overlapping
    matches, scanning left to right.  [skip] counts the characters of the
    previous match still to be stepped over. *)
Fixpoint finditer_from (r : re) (s : str) (skip : nat) : list (list str) :=
  match skip with
  | S n =>
      match s with
      | [] => []
      | _ :: s' => finditer_from r s' n
      end
  | O =>
      match match_here r s with
      | Some (caps, len) =>
          caps :: match s with
                  | [] => []
                  | _ :: s' => finditer_from r s' (len - 1)
                  end
      | None =>
          match s with
          | [] => []
          | _ :: s' => finditer_from r s' 0
          end
      end
  end.

Definition finditer (r : re) (s : str) : list (list str) := finditer_from r s 0.

End Re.

(* ===================================================================== *)
(** * Python values, dictionaries and exceptions *)
(* ===================================================================== *)

Module Obj.

(** The values a job record or a DataFrame cell holds: a string, [None],
    or the float NaN that pandas puts in a missing cell.  A date is
    represented by its [str()], the only way the tracker looks at it. *)
Inductive pyval := PStr (s : str) | PNone | PNaN.

#[export] Instance pyval_eq_dec : EqDecision pyval.
Proof. solve_decision. Defined.

(** [str(v)] *)
Definition py_str (v : pyval) : str :=
  match v with
  | PStr s => s
  | PNone => txt "None"
  | PNaN => txt "nan"
  end.

(** [bool(v)] *)
Definition truthy (v : pyval) : bool :=
  match v with
  | PStr [] => false
  | PStr (_ :: _) => true
  | PNone => false
  | PNaN => true
  end.

(** [a == b]: NaN is equal to nothing, itself included. *)
Definition py_eq (a b : pyval) : bool :=
  match a, b with
  | PStr s, PStr t => bool_decide (s = t)
  | PNone, PNone => true
  | _, _ => false
  end.

(** [v in values] for a numpy object array: [(values == v).any()]. *)
Definition py_in (v : pyval) (values : list pyval) : bool :=
  existsb (fun x => py_eq x v) values.

(** [pd.isna(v)] *)
Definition isna (v : pyval) : bool :=
  match v with
  | PStr _ => false
  | PNone | PNaN => true
  end.

(** A job record: the dict [row.to_dict()] of one DataFrame row. *)
Abbreviation job := (gmap string pyval).

(** [d.get(k)] and [d.get(k, default)] *)
Definition get (d : job) (k : string) : pyval := default PNone (d !! k).
Definition get_or (d : job) (k : string) (dflt : pyval) : pyval :=
  default dflt (d !! k).

(** Exceptions derived from [Exception], by class name. *)
Inductive exn := Exception (class_name : string).

Inductive result (A : Type) :=
| Ok (a : A)
| Raise (e : exn).
Arguments Ok {A} a.
Arguments Raise {A} e.

Definition bind {A B} (m : result A) (f : A -> result B) : result B :=
  match m with
  | Ok a => f a
  | Raise e => Raise e
  end.

(** [try: body  except Exception as e: handler(e)] *)
Definition try_except {A} (body : result A) (handler : exn -> result A)
  : result A :=
  match body with
  | Ok a => Ok a
  | Raise e => handler e
  end.

End Obj.

Notation "'let*' x := m 'in' k" := (Obj.bind m (fun x => k))
  (at level 10, x name, m at level 100, k at level 200, only parsing).

(* ===================================================================== *)
(** * scraper.py *)
(* ===================================================================== *)

Module Scraper.
Import Re Obj.

(** The settings of config.py the filter reads. *)
Record config := {
  MAX_YEARS_EXPERIENCE : N;
  SENIOR_KEYWORDS : list str;
  JUNIOR_KEYWORDS : list str
}.

Definition config_py : config := {|
  MAX_YEARS_EXPERIENCE := 5;
  SENIOR_KEYWORDS := txt <$>
    ["senior"; "sr."; "lead"; "principal"; "staff"; "architect";
     "head of"; "director"; "manager"; "10+ years"; "8+ years"; "7+ years"];
  JUNIOR_KEYWORDS := txt <$>
    ["junior"; "intermediate"; "mid-level"; "associate"; "entry";
     "0-3 years"; "1-3 years"; "2-4 years"; "2-5 years"; "3-5 years";
     "new grad"]
|}.

(** [(\d+)\+?\s*(?:to|-)\s*(\d+)\s*years?] *)
Definition pat_range : re :=
  cat [Grp (Plus Digit); Opt (Chr (Lit "+")); Star Space;
       Alt (word (txt "to")) (Chr (Lit "-")); Star Space;
       Grp (Plus Digit); Star Space; word (txt "year"); Opt (Chr (Lit "s"))].

(** [(\d+)\+\s*years?] *)
Definition pat_plus : re :=
  cat [Grp (Plus Digit); Chr (Lit "+"); Star Space;
       word (txt "year"); Opt (Chr (Lit "s"))].

(** [(\d+)\s*years?\s*(?:of)?\s*experience] *)
Definition pat_experience : re :=
  cat [Grp (Plus Digit); Star Space; word (txt "year"); Opt (Chr (Lit "s"));
       Star Space; Opt (word (txt "of")); Star Space;
       word (txt "experience")].

Definition patterns : list re := [pat_range; pat_plus; pat_experience].

(** [max(groups)]; every match of the three patterns has a group. *)
Definition py_max (l : list N) : N := foldr N.max 0%N l.

(** [found = max(int(g) for g in match.groups())] *)
Definition found (groups : list str) : N := py_max (Py.int <$> groups).

(** [if max_years is None or found > max_years: max_years = found] *)
Definition keep_max (max_years : option N) (fnd : N) : option N :=
  match max_years with
  | None => Some fnd
  | Some m => if (m <? fnd)%N then Some fnd else Some m
  end.

Definition _extract_years_required (text : str) : option N :=
  match text with
  | [] => None
  | _ =>
      fold_left
        (fun max_years pat =>
           fold_left (fun max_years groups => keep_max max_years (found groups))
                     (finditer pat text) max_years)
        patterns None
  end.

(** [f"{title} {description}".lower()] *)
Definition combined (title description : str) : str :=
  Py.lower (title ++ txt " " ++ description).

Definition _is_senior_role (cfg : config) (title description : str) : bool :=
  existsb (fun kw => Py.contains kw (combined title description))
          (SENIOR_KEYWORDS cfg).

Definition _is_junior_role (cfg : config) (title description : str) : bool :=
  existsb (fun kw => Py.contains kw (combined title description))
          (JUNIOR_KEYWORDS cfg).

Definition _passes_experience_filter (cfg : config) (title description : str)
  : bool :=
  if _is_senior_role cfg title description then false
  else
    match _extract_years_required description with
    | Some years =>
        if (MAX_YEARS_EXPERIENCE cfg <? years)%N then
          if _is_junior_role cfg title description then true else false
        else true
    | None => true
    end.

(** A value as [drop_duplicates] compares it when it looks at several
    columns: each column is factorized, and there the missing values of
    either kind are one and the same. *)
Definition dup_key (v : pyval) : pyval :=
  match v with
  | PNone => PNaN
  | _ => v
  end.

(** What [drop_duplicates] compares of a row.  With a single column it
    is the value of the cell, hashed as an object: two NaN are alike,
    [None] and NaN are not.  With several columns it is the codes of the
    cells.  The columns are there (see [has_columns]). *)
Definition subset_key (subset : list string) (row : job) : list pyval :=
  match subset with
  | [c] => [get row c]
  | _ => (fun c => dup_key (get row c)) <$> subset
  end.

(** [df.drop_duplicates(subset=..., keep="first")]: [seen] holds the keys of
    the rows already passed. *)
Fixpoint drop_duplicates_from (subset : list string) (seen : list (list pyval))
    (df : list job) : list job :=
  match df with
  | [] => []
  | row :: rest =>
      if decide (subset_key subset row ∈ seen)
      then drop_duplicates_from subset seen rest
      else row :: drop_duplicates_from subset (subset_key subset row :: seen) rest
  end.

(** The rows [keep="first"] keeps. *)
Definition keep_first (subset : list string) (df : list job) : list job :=
  drop_duplicates_from subset [] df.

(** A frame is the list of its rows, which all have the columns of the
    frame as their keys; the columns are read off the first row.  An empty
    frame passes: [drop_duplicates] returns it before it looks at
    [subset]. *)
Definition has_columns (subset : list string) (df : list job) : bool :=
  match df with
  | [] => true
  | row :: _ => forallb (fun c => bool_decide (is_Some (row !! c))) subset
  end.

(** [df.drop_duplicates(subset=..., keep="first")] *)
Definition drop_duplicates (subset : list string) (df : list job)
  : result (list job) :=
  if has_columns subset df then Ok (keep_first subset df)
  else Raise (Exception "KeyError").

Definition _deduplicate (df : list job) : result (list job) :=
  let* df := drop_duplicates ["job_url"] df in
  let* df := drop_duplicates ["company"; "title"] df in
  Ok df.

(** What [_deduplicate] returns for a frame that has the three columns. *)
Definition deduplicate_rows (df : list job) : list job :=
  keep_first ["company"; "title"] (keep_first ["job_url"] df).

End Scraper.

(* ===================================================================== *)
(** * generator.py *)
(* ===================================================================== *)

Module Generator.

Definition KEYWORD_REPORT : str := txt "===KEYWORD_REPORT===".

(** [tailor_resume] from the point where the generation service has
    answered [full_output]. *)
Definition tailor_resume (full_output : str) : str * str :=
  let '(tex_part, kw_part) :=
    if Py.contains KEYWORD_REPORT full_output then
      match Py.split_once KEYWORD_REPORT full_output with
      | Some parts => parts
      | None => (full_output, [])
      end
    else (full_output, txt "Keyword report not generated.")
  in (Py.strip tex_part, Py.strip kw_part).

End Generator.

(* ===================================================================== *)
(** * compiler.py *)
(* ===================================================================== *)

Module Compiler.
Import Obj.

(** How one [subprocess.run(cmd, ..., timeout=60)] ends: with a result,
    with one of the two exceptions [compile_latex_to_pdf] catches, or with
    any other exception (PermissionError, UnicodeDecodeError, ...). *)
Inductive run_outcome :=
| CompletedProcess (returncode : Z)
| TimeoutExpired
| FileNotFoundError
| OtherError (e : exn).

(** The machine the driver runs on: the files that exist, and the commands
    handed to [subprocess.run] so far, oldest first. *)
Record world := { files : gset str; invoked : list (list str) }.

Section Driver.
(** pathlib: [Path(p).parent], [Path(p).stem], [dir / name]. *)
Variable parent : str -> str.
Variable stem : str -> str.
Variable joinpath : str -> str -> str.
(** What running a command in a directory does to the files, and how it
    ends; the answer may depend on how many runs came before. *)
Variable tool : list str -> str -> nat -> gset str -> run_outcome * gset str.

Definition subprocess_run (cmd : list str) (cwd : str) (w : world)
  : run_outcome * world :=
  let '(out, fs) := tool cmd cwd (length (invoked w)) (files w) in
  (out, {| files := fs; invoked := invoked w ++ [cmd] |}).

(** [for run_num in (1, 2): try: subprocess.run(...) except ...: return ""].
    [Ok true]: the loop ran to its end; [Ok false]: a handler returned "";
    [Raise e]: a run raised an exception that no handler catches. *)
Fixpoint pdflatex_runs (run_nums : list nat) (cmd : list str) (cwd : str)
    (w : world) : result bool * world :=
  match run_nums with
  | [] => (Ok true, w)
  | _ :: rest =>
      let '(out, w') := subprocess_run cmd cwd w in
      match out with
      | CompletedProcess _ => pdflatex_runs rest cmd cwd w'
      | TimeoutExpired => (Ok false, w')
      | FileNotFoundError => (Ok false, w')
      | OtherError e => (Raise e, w')
      end
  end.

(** [if aux.exists(): aux.unlink()] for each extension in turn. *)
Definition unlink_aux (work_dir st : str) (exts : list str) (fs : gset str)
  : gset str :=
  fold_left
    (fun fs ext =>
       let aux := joinpath work_dir (st ++ ext) in
       if decide (aux ∈ fs) then fs ∖ {[aux]} else fs)
    exts fs.

Definition aux_exts : list str := [txt ".aux"; txt ".log"; txt ".out"].

Definition compile_latex_to_pdf (tex_path : str) (w : world)
  : result str * world :=
  if decide (tex_path ∈ files w) then
    let work_dir := parent tex_path in
    let pdf_path := joinpath work_dir (stem tex_path ++ txt ".pdf") in
    let cmd := [txt "pdflatex"; txt "-interaction=nonstopmode";
                txt "-output-directory"; work_dir; tex_path] in
    let '(finished, w1) := pdflatex_runs [1; 2] cmd work_dir w in
    match finished with
    | Ok true =>
        if decide (pdf_path ∈ files w1) then
          (Ok pdf_path,
           {| files := unlink_aux work_dir (stem tex_path) aux_exts (files w1);
              invoked := invoked w1 |})
        else (Ok [], w1)
    | Ok false => (Ok [], w1)
    | Raise e => (Raise e, w1)
    end
  else (Ok [], w).
End Driver.

End Compiler.

(* ===================================================================== *)
(** * tracker.py *)
(* ===================================================================== *)

Module Tracker.
Import Obj.

(** One line of applied_jobs.csv under the header [CSV_COLUMNS]. *)
Record row (C : Type) := Row {
  job_url : C; title : C; company : C; location : C; site : C;
  date_posted : C; scraped_at : C; applied_at : C; status : C;
  resume_path : C; cover_letter_path : C; notion_page_id : C; notes : C
}.
Arguments Row {C}.
Arguments job_url {C}. Arguments title {C}. Arguments company {C}.
Arguments location {C}. Arguments site {C}. Arguments date_posted {C}.
Arguments scraped_at {C}. Arguments applied_at {C}. Arguments status {C}.
Arguments resume_path {C}. Arguments cover_letter_path {C}.
Arguments notion_page_id {C}. Arguments notes {C}.

Definition row_map {A B} (f : A -> B) (r : row A) : row B :=
  {| job_url := f (job_url r); title := f (title r);
     company := f (company r); location := f (location r);
     site := f (site r); date_posted := f (date_posted r);
     scraped_at := f (scraped_at r); applied_at := f (applied_at r);
     status := f (status r); resume_path := f (resume_path r);
     cover_letter_path := f (cover_letter_path r);
     notion_page_id := f (notion_page_id r); notes := f (notes r) |}.

(** The file on disk: absent, or the text of its cells line by line. *)
Abbreviation csv_file := (option (list (row str))).
(** The DataFrame in memory. *)
Abbreviation frame := (list (row pyval)).

(** The cell texts [pd.read_csv] takes for a missing value (its default
    [na_values]); the empty cell is the first of them. *)
Definition na_values : list str := txt <$>
  [""; "#N/A"; "#N/A N/A"; "#NA"; "-1.#IND"; "-1.#QNAN"; "-NaN"; "-nan";
   "1.#IND"; "1.#QNAN"; "<NA>"; "N/A"; "NA"; "NULL"; "NaN"; "None";
   "n/a"; "nan"; "null"].

(** [pd.read_csv(..., dtype=str)] on one cell. *)
Definition read_cell (s : str) : pyval :=
  if decide (s ∈ na_values) then PNaN else PStr s.

(** [df.to_csv(...)] on one cell: a missing value is written empty. *)
Definition to_csv_cell (v : pyval) : str :=
  match v with
  | PStr s => s
  | PNone | PNaN => []
  end.

Definition read_csv (rows : list (row str)) : frame :=
  row_map read_cell <$> rows.

(** The file is modelled by the records [pd.read_csv] finds in it.  For
    the file [df.to_csv] writes these are the rows of [df], cell by cell,
    as long as no cell holds a carriage return: a cell with a bare
    carriage return is written as it is and read back as the end of a
    record, which is outside this model (see [Spec.no_cr]). *)
Definition to_csv (df : frame) : list (row str) :=
  row_map to_csv_cell <$> df.

(** Returns the frame and the file, which it creates when there is none. *)
Definition _load_csv (f : csv_file) : frame * csv_file :=
  match f with
  | Some rows => (read_csv rows, f)
  | None => ([], Some (to_csv []))
  end.

Definition _save_csv (df : frame) : csv_file := Some (to_csv df).

Definition is_already_tracked (url : str) (f : csv_file) : bool * csv_file :=
  let '(df, f) := _load_csv f in
  (py_in (PStr url) (job_url <$> df), f).

(** [set(tracked["job_url"].dropna().values)] *)
Definition tracked_urls (tracked : frame) : list pyval :=
  filter (fun v => isna v = false) (job_url <$> tracked).

(** [jobs_df["job_url"].isin(urls)]; a missing value is in no such set. *)
Definition isin (v : pyval) (urls : list pyval) : bool :=
  negb (isna v) && bool_decide (v ∈ urls).

Definition filter_new_jobs (jobs_df : list job) (f : csv_file)
  : list job * csv_file :=
  match jobs_df with
  | [] => (jobs_df, f)
  | _ =>
      let '(tracked, f) := _load_csv f in
      let urls := tracked_urls tracked in
      let new := filter (fun j => isin (get j "job_url") urls = false) jobs_df in
      (new, f)
  end.

(** The four [df.at[idx, ...] = ...] assignments of the update branch. *)
Definition update_row (st rp cl npid : str) (r : row pyval) : row pyval :=
  {| job_url := job_url r; title := title r; company := company r;
     location := location r; site := site r; date_posted := date_posted r;
     scraped_at := scraped_at r; applied_at := applied_at r;
     status := PStr st;
     resume_path := PStr rp;
     cover_letter_path := PStr cl;
     notion_page_id :=
       match npid with
       | [] => notion_page_id r
       | _ :: _ => PStr npid
       end;
     notes := notes r |}.

(** [new_row]; [now] is [datetime.now().isoformat()]. *)
Definition new_row (now : str) (j : job) (st rp cl npid : str) : row pyval :=
  {| job_url := get_or j "job_url" (PStr []);
     title := get_or j "title" (PStr []);
     company := get_or j "company" (PStr []);
     location := get_or j "location" (PStr []);
     site := get_or j "site" (PStr []);
     date_posted := PStr (py_str (get_or j "date_posted" (PStr [])));
     scraped_at := get_or j "scraped_at" (PStr now);
     applied_at := PStr [];
     status := PStr st;
     resume_path := PStr rp;
     cover_letter_path := PStr cl;
     notion_page_id := PStr npid;
     notes := PStr [] |}.

(** The frame [log_job_to_csv] hands to [_save_csv], from the one it
    loaded.  The [None] of the index lookup is Python's IndexError; it is
    never reached (lemma [update_index_found]). *)
Definition upsert (now : str) (j : job) (st rp cl npid : str) (df : frame)
  : frame :=
  if py_in (get j "job_url") (job_url <$> df) then
    match list_find (fun r => py_eq (job_url r) (get j "job_url") = true) df with
    | Some (idx, _) => alter (update_row st rp cl npid) idx df
    | None => df
    end
  else df ++ [new_row now j st rp cl npid].

Definition log_job_to_csv (now : str) (j : job) (st rp cl npid : str)
    (f : csv_file) : csv_file :=
  let '(df, _) := _load_csv f in
  _save_csv (upsert now j st rp cl npid df).

(** The request body of [notion.pages.create]. *)
Record properties := {
  Job_Title : str; Company : str; Location : str; Status : str;
  Platform : str; Job_URL : option str; Resume_Path : str;
  Cover_Letter_Path : str; Date_Posted : option str
}.

(** The Notion client and the date parser, as the calls answer. *)
Record services := {
  Client : result unit;
  to_datetime : str -> result str;
  pages_create : properties -> result (gmap string str)
}.

(** [page["id"]] *)
Definition getitem (d : gmap string str) (k : string) : result str :=
  match d !! k with
  | Some v => Ok v
  | None => Raise (Exception "KeyError")
  end.

Definition date_str_of (sv : services) (j : job) : option str :=
  let date_posted := get j "date_posted" in
  if truthy date_posted &&
     negb (bool_decide (py_str date_posted ∈
             [txt "None"; txt "NaT"; txt "nan"; txt ""]))
  then
    match to_datetime sv (py_str date_posted) with
    | Ok d => Some d
    | Raise _ => None
    end
  else None.

Definition or_none (s : str) : option str :=
  match s with
  | [] => None
  | _ :: _ => Some s
  end.

(** [properties], with "Date Posted" set [if date_str:]. *)
Definition page_properties (sv : services) (j : job) (st rp cl : str)
  : properties :=
  let date_str := date_str_of sv j in
  {| Job_Title := py_str (get_or j "title" (PStr []));
     Company := py_str (get_or j "company" (PStr []));
     Location := py_str (get_or j "location" (PStr []));
     Status := st;
     Platform := py_str (get_or j "site" (PStr (txt "unknown")));
     Job_URL := or_none (py_str (get_or j "job_url" (PStr [])));
     Resume_Path := rp;
     Cover_Letter_Path := cl;
     Date_Posted :=
       match date_str with
       | Some ((_ :: _) as d) => Some d
       | _ => None
       end |}.

Definition create_notion_page (sv : services) (j : job) (st rp cl : str)
  : result (option str) :=
  try_except
    (let* notion := Client sv in
     let props := page_properties sv j st rp cl in
     let* page := pages_create sv props in
     let* page_id := getitem page "id" in
     Ok (Some page_id))
    (fun e => Ok None).

(** [notion_page_id or ""] *)
Definition or_empty (o : option str) : str :=
  match o with
  | Some ((_ :: _) as s) => s
  | _ => []
  end.

Definition track_job (sv : services) (now : str) (j : job) (st rp cl : str)
    (f : csv_file) : result (option str * csv_file) :=
  let* notion_page_id := create_notion_page sv j st rp cl in
  let f' := log_job_to_csv now j st rp cl (or_empty notion_page_id) f in
  Ok (notion_page_id, f').

End Tracker.

(* ===================================================================== *)
(** * scraper.py: the cleaning steps of [scrape_new_jobs] *)
(* ===================================================================== *)

Module ScraperRun.
Import Re Obj Scraper.

(** [str(v or "")]; NaN is true, so it comes out as "nan". *)
Definition str_or_empty (v : pyval) : str :=
  match v with
  | PStr s => s
  | PNone => []
  | PNaN => txt "nan"
  end.

(** One cell of [series.fillna("")]. *)
Definition fillna_empty (v : pyval) : str :=
  match v with
  | PStr s => s
  | PNone | PNaN => []
  end.

(** [re.search(r, s) is not None], the test behind [str.contains]. *)
Fixpoint search (r : re) (s : str) : bool :=
  match match_here r s with
  | Some _ => true
  | None =>
      match s with
      | [] => false
      | _ :: s' => search r s'
      end
  end.

(** [canada|ontario|bc|alberta|quebec|british columbia|toronto|vancouver|
    montreal|calgary|ottawa], with [case=False]. *)
Definition pat_canada : re :=
  foldr (fun w r => Alt (word (txt w)) r) (word (txt "ottawa"))
    ["canada"; "ontario"; "bc"; "alberta"; "quebec"; "british columbia";
     "toronto"; "vancouver"; "montreal"; "calgary"].

(** [remote], with [case=False]. *)
Definition pat_remote : re := word (txt "remote").

(** [str(row.get("title", "") or "")] and the same for the description. *)
Definition row_title (row : job) : str :=
  str_or_empty (get_or row "title" (PStr [])).
Definition row_description (row : job) : str :=
  str_or_empty (get_or row "description" (PStr [])).

Definition experience_mask (cfg : config) (row : job) : bool :=
  _passes_experience_filter cfg (row_title row) (row_description row).

(** [canada_mask | remote_mask] *)
Definition location_mask (row : job) : bool :=
  let location := fillna_empty (get row "location") in
  search pat_canada location || search pat_remote location.

Definition keep_cols : list string :=
  ["title"; "company"; "location"; "job_url"; "description"; "date_posted";
   "site"; "min_amount"; "max_amount"; "currency"; "scraped_at"; "status";
   "junior_match"; "experience_years"].

(** A row of the frame [scrape_new_jobs] returns: the kept columns that
    hold text, and the two derived columns with their own types (the two
    assignments overwrite a column of the same name in the input). *)
Record scraped := {
  cells : job;
  junior_match : bool;
  experience_years : option N
}.

Definition finish (cfg : config) (now : str) (row : job) : scraped :=
  {| cells :=
       filter (fun kv : string * pyval => kv.1 ∈ keep_cols)
         (<["status" := PStr (txt "New")]>
            (<["scraped_at" := PStr now]>
               (delete "experience_years" (delete "junior_match" row))));
     junior_match :=
       _is_junior_role cfg (row_title row) (row_description row);
     experience_years :=
       _extract_years_required (fillna_empty (get row "description")) |}.

(** [scrape_new_jobs] from the point where the raw results are combined
    into [df] and the required columns exist (lines 142 to 144 add the
    missing ones, so [_deduplicate] does not raise and returns
    [deduplicate_rows df]); [now] is the time of the scrape. *)
Definition scrape_new_jobs (cfg : config) (now : str) (df : list job)
  : list scraped :=
  let df := filter (fun row => experience_mask cfg row = true) df in
  let df := filter (fun row => location_mask row = true) df in
  let df := deduplicate_rows df in
  finish cfg now <$> df.

End ScraperRun.

(* ===================================================================== *)
(** * generator.py: the name of the output folder *)
(* ===================================================================== *)

Module GeneratorDirs.

(** [str.isalnum] below U+0100: letters, digits, and the characters
    Unicode counts as numbers (superscripts and fractions). *)
Definition isalnum (c : ascii) : bool :=
  Py.between 48 57 c || Py.between 65 90 c || Py.between 97 122 c
  || (Py.ord c =? 170)%N || (Py.ord c =? 178)%N || (Py.ord c =? 179)%N
  || (Py.ord c =? 181)%N || (Py.ord c =? 185)%N || (Py.ord c =? 186)%N
  || Py.between 188 190 c || Py.between 192 214 c || Py.between 216 246 c
  || Py.between 248 255 c.

(** [\w] *)
Definition isword (c : ascii) : bool := isalnum c || (Py.ord c =? 95)%N.

(** [re.sub(r'[^\w\s-]', '', s)]: the characters outside the class go. *)
Definition drop_special (s : str) : str :=
  List.filter (fun c => isword c || Py.isspace c || (Py.ord c =? 45)%N) s.

(** [s.replace(' ', '_')] *)
Definition spaces_to_underscores (s : str) : str :=
  map (fun c => if (Py.ord c =? 32)%N then "_"%char else c) s.

(** [safe], capped at 60 characters. *)
Definition safe_name (company title : str) : str :=
  take 60
    (spaces_to_underscores
       (Py.strip (drop_special (company ++ txt "_" ++ title)))).

(** The name of the folder [_make_output_dir] creates under OUTPUT_DIR;
    [timestamp] is [datetime.now().strftime("%Y%m%d_%H%M")]. *)
Definition _make_output_dir (company title timestamp : str) : str :=
  safe_name company title ++ txt "_" ++ timestamp.

End GeneratorDirs.

(* ===================================================================== *)
(** * compiler.py: the cover letter converter and [compile_all] *)
(* ===================================================================== *)

Module CompilerDocx.
Import Obj Compiler.

(** How [docx2pdf.convert] ends. *)
Inductive convert_outcome := Converted | ConvertRaised.

Section Converter.
Variable parent : str -> str.
Variable stem : str -> str.
Variable joinpath : str -> str -> str.
Variable tool : list str -> str -> nat -> gset str -> run_outcome * gset str.
(** [shutil.which(path) is not None] *)
Variable which : str -> bool.
(** [docx2pdf.convert], or [None] when the import fails. *)
Variable docx2pdf : option (str -> str -> gset str -> convert_outcome * gset str).

Definition libreoffice_paths : list str :=
  [txt "C:\Program Files\LibreOffice\program\soffice.exe";
   txt "C:\Program Files (x86)\LibreOffice\program\soffice.exe";
   txt "soffice"; txt "libreoffice"].

(** The first path the loop accepts. *)
Definition find_soffice (w : world) : option str :=
  snd <$> list_find (fun path => which path = true \/ path ∈ files w)
            libreoffice_paths.

Definition convert_docx_to_pdf (docx_path : str) (w : world) : str * world :=
  if decide (docx_path ∈ files w) then
    let output_dir := parent docx_path in
    let pdf_path := joinpath output_dir (stem docx_path ++ txt ".pdf") in
    let '(converted, w1) :=
      match find_soffice w with
      | Some soffice =>
          let '(out, w1) :=
            subprocess_run tool
              [soffice; txt "--headless"; txt "--convert-to"; txt "pdf";
               txt "--outdir"; output_dir; docx_path] [] w in
          match out with
          | CompletedProcess _ => (bool_decide (pdf_path ∈ files w1), w1)
          | TimeoutExpired => (false, w1)
          | FileNotFoundError => (false, w1)
          | OtherError _ => (false, w1)
          end
      | None => (false, w)
      end in
    if converted then (pdf_path, w1)
    else
      match docx2pdf with
      | Some convert =>
          let '(out, fs2) := convert docx_path pdf_path (files w1) in
          let w2 := {| files := fs2; invoked := invoked w1 |} in
          match out with
          | Converted =>
              if decide (pdf_path ∈ fs2) then (pdf_path, w2) else ([], w2)
          | ConvertRaised => ([], w2)
          end
      | None => ([], w1)
      end
  else ([], w).

(** The second half of [compile_all]: the cover letter. *)
Definition compile_cover (paths : gmap string str) (w : world)
  : gmap string str * world :=
  match paths !! "cover_letter_docx" with
  | Some ((_ :: _) as docx) =>
      let '(pdf, w') := convert_docx_to_pdf docx w in
      (<["cover_letter_pdf" := pdf]> paths, w')
  | _ => (paths, w)
  end.

(** [paths] is the dict of file paths of one job.  An exception that
    leaves [compile_latex_to_pdf] leaves [compile_all] too, before the
    cover letter is looked at. *)
Definition compile_all (paths : gmap string str) (w : world)
  : result (gmap string str) * world :=
  match paths !! "resume_tex" with
  | Some ((_ :: _) as tex) =>
      match compile_latex_to_pdf parent stem joinpath tool tex w with
      | (Ok pdf, w') =>
          let '(paths', w'') := compile_cover (<["resume_pdf" := pdf]> paths) w' in
          (Ok paths', w'')
      | (Raise e, w') => (Raise e, w')
      end
  | _ =>
      let '(paths', w') := compile_cover paths w in
      (Ok paths', w')
  end.
End Converter.

End CompilerDocx.

(* ===================================================================== *)
(** * main.py *)
(* ===================================================================== *)

Module Main.
Import Obj Tracker Compiler CompilerDocx.

(** [d.get(k1) or d.get(k2, "")] *)
Definition get_or_else (d : gmap string str) (k1 k2 : string) : str :=
  match d !! k1 with
  | Some ((_ :: _) as v) => v
  | _ => default [] (d !! k2)
  end.

(** The names main.py binds at module level by the time [run_pipeline] is
    called: those every module has, its imports, [log], its three
    functions, and [parser] and [args] of the entry point. *)
Definition main_globals : list string :=
  ["__name__"; "__doc__"; "__package__"; "__loader__"; "__spec__";
   "__file__"; "__builtins__"; "__annotations__"; "__cached__";
   "argparse"; "logging"; "sys"; "webbrowser"; "datetime"; "schedule";
   "time"; "RUN_TIME"; "scrape_new_jobs"; "filter_new_jobs"; "track_job";
   "generate_application_docs"; "compile_all"; "log"; "run_pipeline";
   "_print_summary_table"; "start_scheduler"; "parser"; "args"].

(** The names of the [builtins] module (Python 3.11). *)
Definition py_builtins : list string :=
  ["ArithmeticError"; "AssertionError"; "AttributeError"; "BaseException";
   "BaseExceptionGroup"; "BlockingIOError"; "BrokenPipeError";
   "BufferError"; "BytesWarning"; "ChildProcessError";
   "ConnectionAbortedError"; "ConnectionError"; "ConnectionRefusedError";
   "ConnectionResetError"; "DeprecationWarning"; "EOFError"; "Ellipsis";
   "EncodingWarning"; "EnvironmentError"; "Exception"; "ExceptionGroup";
   "False"; "FileExistsError"; "FileNotFoundError"; "FloatingPointError";
   "FutureWarning"; "GeneratorExit"; "IOError"; "ImportError";
   "ImportWarning"; "IndentationError"; "IndexError"; "InterruptedError";
   "IsADirectoryError"; "KeyError"; "KeyboardInterrupt"; "LookupError";
   "MemoryError"; "ModuleNotFoundError"; "NameError"; "None";
   "NotADirectoryError"; "NotImplemented"; "NotImplementedError";
   "OSError"; "OverflowError"; "PendingDeprecationWarning";
   "PermissionError"; "ProcessLookupError"; "RecursionError";
   "ReferenceError"; "ResourceWarning"; "RuntimeError"; "RuntimeWarning";
   "StopAsyncIteration"; "StopIteration"; "SyntaxError"; "SyntaxWarning";
   "SystemError"; "SystemExit"; "TabError"; "TimeoutError"; "True";
   "TypeError"; "UnboundLocalError"; "UnicodeDecodeError";
   "UnicodeEncodeError"; "UnicodeError"; "UnicodeTranslateError";
   "UnicodeWarning"; "UserWarning"; "ValueError"; "Warning";
   "ZeroDivisionError"; "__build_class__"; "__debug__"; "__doc__";
   "__import__"; "__loader__"; "__name__"; "__package__"; "__spec__";
   "abs"; "aiter"; "all"; "anext"; "any"; "ascii"; "bin"; "bool";
   "breakpoint"; "bytearray"; "bytes"; "callable"; "chr"; "classmethod";
   "compile"; "complex"; "copyright"; "credits"; "delattr"; "dict"; "dir";
   "divmod"; "enumerate"; "eval"; "exec"; "exit"; "filter"; "float";
   "format"; "frozenset"; "getattr"; "globals"; "hasattr"; "hash"; "help";
   "hex"; "id"; "input"; "int"; "isinstance"; "issubclass"; "iter"; "len";
   "license"; "list"; "locals"; "map"; "max"; "memoryview"; "min"; "next";
   "object"; "oct"; "open"; "ord"; "pow"; "print"; "property"; "quit";
   "range"; "repr"; "reversed"; "round"; "set"; "setattr"; "slice";
   "sorted"; "staticmethod"; "str"; "sum"; "super"; "tuple"; "type";
   "vars"; "zip"].

(** The local variables of [run_pipeline] that are bound when its loop has
    run: the names it assigns, but for those of the [try] and of the
    handler. *)
Definition run_pipeline_locals : list string :=
  ["start"; "jobs_df"; "new_jobs_df"; "results"; "idx"; "row"; "job";
   "company"; "title"; "elapsed"].

(** The names the summary after the loop reads (lines 136 to 144), in the
    order it reads them. *)
Definition summary_reads : list string :=
  ["datetime"; "start";
   "log"; "log"; "elapsed";
   "log"; "len"; "new_jobs_df";
   "log"; "len"; "successful";
   "log"; "len"; "results"; "len"; "successful";
   "log"; "_print_summary_table"; "successful"].

(** Reading names in turn: a name that is neither a local variable, nor a
    global of the module, nor a builtin raises NameError. *)
Fixpoint read_names (names : list string) : result unit :=
  match names with
  | [] => Ok tt
  | n :: rest =>
      if bool_decide (n ∈ run_pipeline_locals ++ main_globals ++ py_builtins)
      then read_names rest
      else Raise (Exception "NameError")
  end.

(** The files of the machine and the tracker file. *)
Abbreviation state := (world * csv_file)%type.

Section Pipeline.
Variable parent : str -> str.
Variable stem : str -> str.
Variable joinpath : str -> str -> str.
Variable tool : list str -> str -> nat -> gset str -> run_outcome * gset str.
Variable which : str -> bool.
Variable docx2pdf : option (str -> str -> gset str -> convert_outcome * gset str).
Variable sv : services.
(** [datetime.now().isoformat()] while the nth job of the batch is logged. *)
Variable clock : nat -> str.
(** [generator.generate_application_docs]: the paths it returns or the
    exception it raises, and the files it leaves. *)
Variable generate_application_docs :
  job -> world -> result (gmap string str) * world.

(** The body of the [try] of one iteration. *)
Definition attempt (now : str) (j : job) (s : state) : result unit * state :=
  let '(w, f) := s in
  match generate_application_docs j w with
  | (Ok paths, w1) =>
      match compile_all parent stem joinpath tool which docx2pdf paths w1 with
      | (Ok paths, w2) =>
          match track_job sv now j (txt "Ready to Apply")
                  (get_or_else paths "resume_pdf" "resume_tex")
                  (get_or_else paths "cover_letter_pdf" "cover_letter_docx")
                  f with
          | Ok (_, f') => (Ok tt, (w2, f'))
          | Raise e => (Raise e, (w2, f))
          end
      | (Raise e, w2) => (Raise e, (w2, f))
      end
  | (Raise e, w1) => (Raise e, (w1, f))
  end.

(** One iteration: the [try] and its [except Exception]. *)
Definition process_job (now : str) (j : job) (s : state)
  : result unit * state :=
  match attempt now j s with
  | (Ok _, s') => (Ok tt, s')
  | (Raise _, (w', f')) =>
      match track_job sv now j (txt "Error") [] [] f' with
      | Ok (_, f'') => (Ok tt, (w', f''))
      | Raise e => (Raise e, (w', f'))
      end
  end.

(** [for idx, row in new_jobs_df.iterrows(): ...] *)
Fixpoint process_all (n : nat) (jobs : list job) (s : state)
  : result unit * state :=
  match jobs with
  | [] => (Ok tt, s)
  | j :: rest =>
      match process_job (clock n) j s with
      | (Ok _, s') => process_all (S n) rest s'
      | (Raise e, s') => (Raise e, s')
      end
  end.

(** [run_pipeline], given the frame [scrape_new_jobs()] returned.  The
    summary after the loop only logs and prints: what the model keeps of
    it is the names it reads. *)
Definition run_pipeline (jobs_df : list job) (s : state)
  : result unit * state :=
  match jobs_df with
  | [] => (Ok tt, s)
  | _ :: _ =>
      let '(w, f) := s in
      let '(new_jobs_df, f1) := filter_new_jobs jobs_df f in
      match new_jobs_df with
      | [] => (Ok tt, (w, f1))
      | _ :: _ =>
          match process_all 0 new_jobs_df (w, f1) with
          | (Ok _, s') => (read_names summary_reads, s')
          | (Raise e, s') => (Raise e, s')
          end
      end
  end.
End Pipeline.

End Main.

(* ===================================================================== *)
(** * Notions the statements are written with *)
(* ===================================================================== *)

Module Spec.
Import Re Obj.

(** [kw] occurs in [text], letter for letter. *)
Definition occurs (kw text : str) : Prop :=
  exists a b, text = a ++ kw ++ b.

(** [kw] occurs in [text] up to the case of the letters of both. *)
Definition ci_occurs (kw text : str) : Prop :=
  exists a w b, text = a ++ w ++ b /\ Py.lower w = Py.lower kw.

(** A keyword written in lower case. *)
Definition is_lower (kw : str) : Prop := Py.lower kw = kw.

(** No test of the pattern accepts the character [c]. *)
Fixpoint avoids (c : ascii) (r : re) : bool :=
  match r with
  | Eps => true
  | Chr k | Star k | Plus k => negb (cls_match k c)
  | Opt r1 | Grp r1 => avoids c r1
  | Alt r1 r2 | Seq r1 r2 => avoids c r1 && avoids c r2
  end.

(** The value [found] of every match of every pattern in [text], in the
    order the loops of [_extract_years_required] visit them. *)
Definition all_found (text : str) : list N :=
  pat ← Scraper.patterns; Scraper.found <$> finditer pat text.


(** The thirteen cells of a row of the tracker. *)
Definition cells_of {C} (r : Tracker.row C) : list C :=
  [Tracker.job_url r; Tracker.title r; Tracker.company r; Tracker.location r;
   Tracker.site r; Tracker.date_posted r; Tracker.scraped_at r;
   Tracker.applied_at r; Tracker.status r; Tracker.resume_path r;
   Tracker.cover_letter_path r; Tracker.notion_page_id r; Tracker.notes r].

(** No cell of the file holds a carriage return (code 13): the records
    are then read back as they were written. *)
Definition no_cr (f : Tracker.csv_file) : Prop :=
  Forall (fun r => Forall (fun s : str => ascii_of_nat 13 ∉ s) (cells_of r))
         (default [] f).

(** A cell of the file after it was read and written back: a text that
    [read_csv] takes for a missing value comes back empty. *)
Definition rewritten (s : str) : str :=
  if decide (s ∈ Tracker.na_values) then [] else s.

(** Two postings have the same URL. *)
Definition same_url (a b : job) : Prop := get a "job_url" = get b "job_url".

(** Two cells hold the same: the same value, or both nothing. *)
Definition same_cell (a b : pyval) : Prop :=
  a = b \/ (isna a = true /\ isna b = true).

(** Two postings have the same (company, title) pair. *)
Definition same_company_title (a b : job) : Prop :=
  same_cell (get a "company") (get b "company")
  /\ same_cell (get a "title") (get b "title").

#[export] Instance same_url_dec a b : Decision (same_url a b).
Proof. unfold same_url. apply _. Defined.

#[export] Instance same_company_title_dec a b :
  Decision (same_company_title a b).
Proof. unfold same_company_title, same_cell. apply _. Defined.

(** No two entries of the list, at different places, are related. *)
Definition pairwise_not {A} (R : A -> A -> Prop) (l : list A) : Prop :=
  forall i j a b, l !! i = Some a -> l !! j = Some b -> i <> j -> ~ R a b.

(** Nothing but white space. *)
Definition blank (s : str) : Prop := Forall (fun c => Py.isspace c = true) s.

(** No white space at either end. *)
Definition trimmed (s : str) : Prop :=
  (forall c t, s = c :: t -> Py.isspace c = false)
  /\ (forall c t, s = t ++ [c] -> Py.isspace c = false).

(** [a] and [b] are the two sides of the leftmost [sep] in [hay]. *)
Definition leftmost_split (sep hay a b : str) : Prop :=
  hay = a ++ sep ++ b
  /\ forall a' b', hay = a' ++ sep ++ b' -> length a <= length a'.

End Spec.

(* Proof automation. *)

(** Run the matcher on a text whose head is known.  The tests on known
    characters are decided first, so only the branch taken is unfolded. *)
Ltac exec_in H :=
  cbn [txt list_ascii_of_string app] in H;
  lazy -[length take Nat.sub app] in H.

Ltac exec :=
  cbn [txt list_ascii_of_string app];
  lazy -[length take Nat.sub app].

Ltac mem_norm :=
  rewrite ?fmap_cons;
  repeat (rewrite elem_of_cons || rewrite elem_of_app || rewrite not_elem_of_cons).

(* ===================================================================== *)
(** * Facts about strings *)
(* ===================================================================== *)

Section PyFacts.
Import Py.

Lemma txt_app (a b : string) : txt (a +:+ b) = txt a ++ txt b.
Proof. induction a as [|c a IH]; simpl; [done | by rewrite <- IH]. Qed.

Lemma int_snoc (d : str) (c : ascii) :
  int (d ++ [c]) = (10 * int d + digit_val c)%N.
Proof. unfold int. by rewrite fold_left_app. Qed.

Lemma take_app_sub (a b : str) : take (length (a ++ b) - length b) (a ++ b) = a.
Proof.
  rewrite length_app, Nat.add_sub. by rewrite take_app_length.
Qed.

Lemma startswith_spec (p s : str) :
  startswith p s = true <-> exists b, s = p ++ b.
Proof.
  revert s. induction p as [|a p IH]; intros s; simpl.
  - split; [intros _; by exists s | done].
  - destruct s as [|c s].
    + split; [done | intros [b Hb]; discriminate].
    + rewrite andb_true_iff, IH. split.
      * intros [Hac [b ->]]. apply Ascii.eqb_eq in Hac as ->. by exists b.
      * intros [b Hb]. injection Hb as -> ->. split; [apply Ascii.eqb_refl | by exists b].
Qed.

Lemma contains_spec (kw s : str) :
  contains kw s = true <-> Spec.occurs kw s.
Proof.
  unfold Spec.occurs. induction s as [|c s IH]; simpl.
  - rewrite orb_false_r, startswith_spec. split.
    + intros [b Hb]. by exists [], b.
    + intros (a & b & Hab). destruct a; [by exists b | discriminate].
  - rewrite orb_true_iff, startswith_spec, IH. split.
    + intros [[b Hb] | (a & b & ->)]; [by exists [], b | by exists (c :: a), b].
    + intros (a & b & Hab). destruct a as [|x a]; simpl in Hab.
      * left. by exists b.
      * right. injection Hab as -> ->. by exists a, b.
Qed.
End PyFacts.

(* ===================================================================== *)
(** * Facts about the matcher *)
(* ===================================================================== *)

Section ReFacts.
Import Re Spec.
Context {R : Type}.
Variable c0 : ascii.
Variable T' : str.

(** A greedy run of a test that rejects [c0] stops before [c0]. *)
Lemma star_stops k (cont : str -> option R) p res :
  cls_match k c0 = false ->
  star k (p ++ c0 :: T') cont = Some res ->
  exists p', cont (p' ++ c0 :: T') = Some res.
Proof.
  intros Hk. induction p as [|x p IH]; simpl.
  - rewrite Hk. intros H. by exists [].
  - destruct (cls_match k x).
    + destruct (star k (p ++ c0 :: T') cont) eqn:E.
      * intros [= ->]. by apply IH.
      * intros H. by exists (x :: p).
    + intros H. by exists (x :: p).
Qed.

(** A pattern none of whose tests accepts [c0] hands its continuation a
    text that still has all of [c0 :: T']. *)
Lemma run_stops r :
  avoids c0 r = true ->
  forall (cont : str -> list str -> option R) p caps res,
    run r (p ++ c0 :: T') caps cont = Some res ->
    exists p' caps', cont (p' ++ c0 :: T') caps' = Some res.
Proof.
  induction r as [|k|k|k|r IH|r1 IH1 r2 IH2|r1 IH1 r2 IH2|r IH];
    simpl; intros Hav cont p caps res H.
  - eauto.
  - apply negb_true_iff in Hav.
    destruct p as [|x p]; simpl in H.
    + by rewrite Hav in H.
    + destruct (cls_match k x); [eauto | done].
  - apply negb_true_iff in Hav.
    apply star_stops in H as [p' H]; eauto.
  - apply negb_true_iff in Hav.
    destruct p as [|x p]; simpl in H.
    + by rewrite Hav in H.
    + destruct (cls_match k x); [|done].
      apply star_stops in H as [p' H]; eauto.
  - destruct (run r (p ++ c0 :: T') caps cont) eqn:E.
    + injection H as ->. eauto.
    + eauto.
  - apply andb_true_iff in Hav as [Hav1 Hav2].
    destruct (run r1 (p ++ c0 :: T') caps cont) eqn:E.
    + injection H as ->. eauto.
    + eauto.
  - apply andb_true_iff in Hav as [Hav1 Hav2].
    apply IH1 in H as (p1 & caps1 & H); [|done]. eauto.
  - apply IH in H as (p1 & caps1 & H); [|done]. eauto.
Qed.

(** A greedy run of a test that accepts [c0] either stops before [c0] or
    runs over it, and then everything before [c0] passed the test. *)
Lemma star_crosses k (cont : str -> option R) p res :
  star k (p ++ c0 :: T') cont = Some res ->
  (exists p', cont (p' ++ c0 :: T') = Some res) \/
  (Forall (fun x => cls_match k x = true) p /\ star k T' cont = Some res).
Proof.
  induction p as [|x p IH]; simpl.
  - destruct (cls_match k c0).
    + destruct (star k T' cont) eqn:E.
      * intros [= ->]. by right.
      * intros H. left. by exists [].
    + intros H. left. by exists [].
  - destruct (cls_match k x) eqn:Hx.
    + destruct (star k (p ++ c0 :: T') cont) eqn:E.
      * intros [= ->]. destruct (IH eq_refl) as [[p' H] | [HF H]].
        -- left. eauto.
        -- right. split; [by constructor | done].
      * intros H. left. by exists (x :: p).
    + intros H. left. by exists (x :: p).
Qed.

(** The group [(\d+)] in front of [c0 :: T']. *)
Lemma group_crosses k (cont : str -> list str -> option R) p caps res :
  run (Grp (Plus k)) (p ++ c0 :: T') caps cont = Some res ->
  (exists p' caps', cont (p' ++ c0 :: T') caps' = Some res) \/
  (Forall (fun x => cls_match k x = true) p /\
   star k T'
     (fun s'' => cont s''
        (caps ++ [take (length (p ++ c0 :: T') - length s'') (p ++ c0 :: T')]))
   = Some res).
Proof.
  simpl. destruct p as [|x p]; simpl.
  - destruct (cls_match k c0); [|done]. intros H. right. by split.
  - destruct (cls_match k x) eqn:Hx; [|done]. intros H.
    apply star_crosses in H as [[p' H] | [HF H]].
    + left. eauto.
    + right. split; [by constructor | done].
Qed.
End ReFacts.

(* ===================================================================== *)
(** * The years patterns on a text that holds "3-5 years" or "5+ years" *)
(* ===================================================================== *)

Section YearsFacts.
Import Re Scraper Spec.

Lemma run_Seq {R} r1 r2 s caps (cont : str -> list str -> option R) :
  run (Seq r1 r2) s caps cont = run r1 s caps (fun s' caps' => run r2 s' caps' cont).
Proof. reflexivity. Qed.

Lemma take_cons_sub (x : ascii) (b : str) :
  take (length (x :: b) - length b) (x :: b) = [x].
Proof. apply (take_app_sub [x] b). Qed.

Lemma take_snoc_sub (p : str) (x : ascii) (b : str) n :
  n = length b -> take (length (p ++ x :: b) - n) (p ++ x :: b) = p ++ [x].
Proof.
  intros ->. rewrite (cons_middle x p b), (app_assoc p [x] b). apply take_app_sub.
Qed.

Lemma take_Ssub (x : ascii) (b : str) n : take (S n - n) (x :: b) = [x].
Proof. by replace (S n - n) with 1 by lia. Qed.


Lemma found_pair_r (a b : str) : (Py.int b <= found [a; b])%N.
Proof. unfold found, py_max. simpl. lia. Qed.

Lemma found_single (a : str) : found [a] = Py.int a.
Proof. unfold found, py_max. simpl. lia. Qed.

Lemma range_cover pre post caps len :
  match_here pat_range (pre ++ txt "3-5 years" ++ post) = Some (caps, len) ->
  (5 <= found caps)%N \/ len <= length pre.
Proof.
  unfold match_here, pat_range.
  change (txt "3-5 years" ++ post) with ("3"%char :: (txt "-5 years" ++ post)).
  set (T' := txt "-5 years" ++ post). set (s := pre ++ _).
  cbn [cat foldr]. rewrite run_Seq. intros H.
  apply group_crosses in H as [(p & cs & H) | [_ H]].
  - do 4 (rewrite run_Seq in H; apply run_stops in H as (? & ? & H);
          [|by vm_compute]).
    rewrite run_Seq in H.
    apply group_crosses in H as [(p' & cs' & H) | [_ H]].
    + apply run_stops in H as (p'' & cs'' & H); [|by vm_compute].
      injection H as -> <-. right. subst s. rewrite !length_app. simpl. lia.
    + subst T'. exec_in H. discriminate.
  - subst T' s. exec_in H. rewrite take_cons_sub in H.
    injection H as <- <-. left.
    etrans; [|apply found_pair_r]. by vm_compute.
Qed.

Lemma plus_cover pre post caps len :
  match_here pat_plus (pre ++ txt "5+ years" ++ post) = Some (caps, len) ->
  (5 <= found caps)%N \/ len <= length pre.
Proof.
  unfold match_here, pat_plus.
  change (txt "5+ years" ++ post) with ("5"%char :: (txt "+ years" ++ post)).
  set (T' := txt "+ years" ++ post). set (s := pre ++ _).
  cbn [cat foldr]. rewrite run_Seq. intros H.
  apply group_crosses in H as [(p & cs & H) | [_ H]].
  - apply run_stops in H as (p'' & cs'' & H); [|by vm_compute].
    injection H as -> <-. right. subst s. rewrite !length_app. simpl. lia.
  - subst T' s. exec_in H. rewrite take_snoc_sub in H by done.
    injection H as <- <-. left.
    rewrite found_single, int_snoc.
    vm_compute (Py.digit_val _). lia.
Qed.

Lemma range_here post :
  exists len, match_here pat_range (txt "3-5 years" ++ post)
              = Some ([txt "3"; txt "5"], len).
Proof.
  unfold match_here, pat_range. exec. rewrite !take_cons_sub. eauto.
Qed.

Lemma plus_here post :
  exists len, match_here pat_plus (txt "5+ years" ++ post) = Some ([txt "5"], len).
Proof.
  unfold match_here, pat_plus. exec. rewrite !take_cons_sub. eauto.
Qed.

Lemma finditer_from_0 r s :
  finditer_from r s 0 =
  match match_here r s with
  | Some (caps, len) => caps :: match s with [] => [] | _ :: s' => finditer_from r s' (len - 1) end
  | None => match s with [] => [] | _ :: s' => finditer_from r s' 0 end
  end.
Proof. by destruct s. Qed.

Lemma finditer_from_hits r (T : str) (P : list str -> Prop) :
  (forall pre caps len,
     match_here r (pre ++ T) = Some (caps, len) -> P caps \/ len <= length pre) ->
  (exists caps len, match_here r T = Some (caps, len) /\ P caps) ->
  forall pre skip, skip <= length pre -> Exists P (finditer_from r (pre ++ T) skip).
Proof.
  intros Hcover (caps0 & len0 & Hhere & HP0).
  induction pre as [|x pre IH]; intros skip Hskip.
  - assert (skip = 0) as -> by (simpl in Hskip; lia). simpl app.
    rewrite finditer_from_0, Hhere. by constructor.
  - destruct skip as [|n].
    + rewrite finditer_from_0.
      destruct (match_here r ((x :: pre) ++ T)) as [[caps len]|] eqn:E.
      * destruct (Hcover _ _ _ E) as [HP | Hlen]; [by constructor|].
        apply Exists_cons_tl, IH. simpl in Hlen. lia.
      * apply IH. lia.
    + simpl. apply IH. simpl in Hskip. lia.
Qed.

(** A text that holds "3-5 years" has a range match worth 5 or more. *)
Lemma range_hit pre post :
  Exists (fun caps => (5 <= found caps)%N)
         (finditer pat_range (pre ++ txt "3-5 years" ++ post)).
Proof.
  unfold finditer.
  apply (finditer_from_hits pat_range (txt "3-5 years" ++ post)
           (fun caps => (5 <= found caps)%N)); [intros ???; apply range_cover | | lia].
  destruct (range_here post) as [len H]. exists [txt "3"; txt "5"], len.
  split; [exact H | by vm_compute].
Qed.

(** A text that holds "5+ years" has an "N+ years" match worth 5 or more. *)
Lemma plus_hit pre post :
  Exists (fun caps => (5 <= found caps)%N)
         (finditer pat_plus (pre ++ txt "5+ years" ++ post)).
Proof.
  unfold finditer.
  apply (finditer_from_hits pat_plus (txt "5+ years" ++ post)
           (fun caps => (5 <= found caps)%N)); [intros ???; apply plus_cover | | lia].
  destruct (plus_here post) as [len H]. exists [txt "5"], len.
  split; [exact H | by vm_compute].
Qed.

(** The two nested loops are one pass of [keep_max] over [all_found]. *)
Lemma extract_fold text :
  fold_left
    (fun max_years pat =>
       fold_left (fun max_years groups => keep_max max_years (found groups))
                 (finditer pat text) max_years)
    patterns None
  = fold_left keep_max (all_found text) None.
Proof.
  assert (Hin : forall l acc,
    fold_left (fun my groups => keep_max my (found groups)) l acc
    = fold_left keep_max (found <$> l) acc).
  { induction l as [|g l IH]; intros acc; simpl; [done | apply IH]. }
  unfold all_found, patterns. cbn [mbind list_bind foldr fold_left].
  rewrite app_nil_r, !fold_left_app. by rewrite !Hin.
Qed.

Lemma keep_max_fold l : forall acc,
  match fold_left keep_max l acc with
  | None => acc = None /\ l = []
  | Some m =>
      (acc = Some m \/ m ∈ l) /\
      Forall (fun v => (v <= m)%N) l /\
      (forall a, acc = Some a -> (a <= m)%N)
  end.
Proof.
  induction l as [|v l IH]; intros acc; simpl.
  - destruct acc as [a|]; [|done].
    split; [by left|]. split; [constructor|]. by intros ? [= ->].
  - specialize (IH (keep_max acc v)).
    destruct (fold_left keep_max l (keep_max acc v)) as [m|].
    + destruct IH as (Hm & Hall & Hacc). unfold keep_max in Hm, Hacc.
      destruct acc as [a|].
      * destruct (a <? v)%N eqn:E.
        -- apply N.ltb_lt in E. specialize (Hacc v eq_refl).
           split; [right; destruct Hm as [[= ->]|Hm]; [left | by right]|].
           split; [by constructor|]. intros ? [= <-]. lia.
        -- apply N.ltb_ge in E. specialize (Hacc a eq_refl).
           split; [destruct Hm as [Hm|Hm]; [by left | right; by right]|].
           split; [constructor; [lia|done]|]. by intros ? [= <-].
      * specialize (Hacc v eq_refl).
        split; [right; destruct Hm as [[= ->]|Hm]; [left | by right]|].
        split; [by constructor|]. done.
    + destruct IH as [Hk _]. by destruct acc as [a|]; simpl in Hk; try destruct (a <? v)%N.
Qed.

Lemma all_found_nil : all_found [] = [].
Proof. by vm_compute. Qed.

Lemma extract_as_fold text :
  _extract_years_required text = fold_left keep_max (all_found text) None.
Proof.
  destruct text as [|c text]; [by rewrite all_found_nil|].
  unfold _extract_years_required. apply extract_fold.
Qed.

Lemma extract_at_least text v k :
  v ∈ all_found text -> (k <= v)%N ->
  exists m, _extract_years_required text = Some m /\ (k <= m)%N.
Proof.
  intros Hv Hk. rewrite extract_as_fold.
  pose proof (keep_max_fold (all_found text) None) as H.
  destruct (fold_left keep_max (all_found text) None) as [m|].
  - destruct H as (_ & Hall & _). exists m. split; [done|].
    rewrite Forall_forall in Hall. specialize (Hall v Hv). lia.
  - destruct H as [_ Hnil]. rewrite Hnil in Hv. by apply elem_of_nil in Hv.
Qed.

End YearsFacts.

(* ===================================================================== *)
(** * scraper.py: the years of experience a text asks for *)
(* ===================================================================== *)

Section ExtractYears.
Import Re Scraper Spec.

Lemma found_in_all_found pat caps text :
  pat ∈ patterns -> caps ∈ finditer pat text -> found caps ∈ all_found text.
Proof.
  intros Hpat Hcaps. unfold all_found. apply list_elem_of_bind.
  exists pat. split; [|done]. apply list_elem_of_fmap. by exists caps.
Qed.

Lemma hit_at_least pat text k :
  pat ∈ patterns ->
  Exists (fun caps => (k <= found caps)%N) (finditer pat text) ->
  exists m, _extract_years_required text = Some m /\ (k <= m)%N.
Proof.
  intros Hpat (caps & Hin & Hk)%Exists_exists.
  eapply extract_at_least; [|exact Hk]. by eapply found_in_all_found.
Qed.

(** C2. [_extract_years_required] returns the largest value among all the
    matches of the three patterns in the text, and [None] exactly when no
    pattern matches; the value of a range match is the larger of its two
    numbers.  A text that holds "3-5 years" yields at least 5, and so does
    a text that holds "5+ years"; a text that holds both yields the
    maximum over all its matches, as every text does. *)
Theorem extract_years_required_max (text pre post : str) :
  match _extract_years_required text with
  | None => all_found text = []
  | Some m => m ∈ all_found text /\ Forall (fun v => (v <= m)%N) (all_found text)
  end
  /\ (exists m, _extract_years_required (pre ++ txt "3-5 years" ++ post) = Some m
                /\ (5 <= m)%N)
  /\ (exists m, _extract_years_required (pre ++ txt "5+ years" ++ post) = Some m
                /\ (5 <= m)%N)
  /\ (forall a b, found [a; b] = N.max (Py.int a) (Py.int b))
  /\ (forall a, found [a] = Py.int a).
Proof.
  repeat split.
  - rewrite extract_as_fold.
    pose proof (keep_max_fold (all_found text) None) as H.
    destruct (fold_left keep_max (all_found text) None) as [m|].
    + destruct H as ([?|?] & ? & _); [done | by split].
    + by destruct H.
  - apply (hit_at_least pat_range); [|apply range_hit].
    unfold patterns. set_solver.
  - apply (hit_at_least pat_plus); [|apply plus_hit].
    unfold patterns. set_solver.
  - intros a b. unfold found, py_max. simpl. lia.
  - apply found_single.
Qed.

End ExtractYears.

(* ===================================================================== *)
(** * scraper.py: seniority keywords and the experience filter *)
(* ===================================================================== *)

Section Keywords.
Import Re Scraper Spec.

Lemma lower_app (a b : str) : Py.lower (a ++ b) = Py.lower a ++ Py.lower b.
Proof. apply map_app. Qed.

(** [any(kw in text for kw in kws)] *)
Lemma any_keyword_spec (kws : list str) (text : str) :
  existsb (fun kw => Py.contains kw text) kws = true
  <-> exists kw, kw ∈ kws /\ occurs kw text.
Proof.
  rewrite existsb_exists. split.
  - intros (kw & Hin & Hc). exists kw. split.
    + by apply list_elem_of_In.
    + by apply contains_spec.
  - intros (kw & Hin & Hc). exists kw. split.
    + by apply list_elem_of_In.
    + by apply contains_spec.
Qed.

(** For a keyword in lower case, to occur in the lowered text is to occur
    in the text up to case. *)
Lemma occurs_lower_ci (kw text : str) :
  is_lower kw -> occurs kw (Py.lower text) <-> ci_occurs kw text.
Proof.
  unfold is_lower, occurs, ci_occurs, Py.lower. intros Hkw. split.
  - intros (a & b & H).
    apply map_eq_app in H as (ta & t' & -> & Ha & H).
    apply map_eq_app in H as (w & tb & -> & Hw & Hb).
    exists ta, w, tb. split; [done|]. by rewrite Hw, Hkw.
  - intros (a & w & b & -> & Hw).
    exists (map Py.lower_char a), (map Py.lower_char b).
    by rewrite !map_app, Hw, Hkw.
Qed.

Lemma keyword_hit_ci (kws : list str) (text : str) :
  Forall is_lower kws ->
  existsb (fun kw => Py.contains kw (Py.lower text)) kws = true
  <-> exists kw, kw ∈ kws /\ ci_occurs kw text.
Proof.
  intros Hlow. rewrite any_keyword_spec. rewrite Forall_forall in Hlow.
  split; intros (kw & Hin & H); exists kw; (split; [done|]);
    by apply (occurs_lower_ci kw text (Hlow kw Hin)).
Qed.

Lemma config_py_lower :
  Forall is_lower (SENIOR_KEYWORDS config_py) /\
  Forall is_lower (JUNIOR_KEYWORDS config_py).
Proof. split; repeat constructor. Qed.

(** C7 as stated fails: a keyword configured with a capital letter is never
    found, although it occurs in the text. *)
Lemma keyword_case_counterexample :
  let cfg := {| MAX_YEARS_EXPERIENCE := 5;
                SENIOR_KEYWORDS := [txt "Senior"];
                JUNIOR_KEYWORDS := [txt "Junior"] |} in
  _is_senior_role cfg (txt "Senior Engineer") (txt "Junior team") = false
  /\ _is_junior_role cfg (txt "Senior Engineer") (txt "Junior team") = false
  /\ (exists kw, kw ∈ SENIOR_KEYWORDS cfg /\
        ci_occurs kw (txt "Senior Engineer" ++ txt " " ++ txt "Junior team"))
  /\ (exists kw, kw ∈ JUNIOR_KEYWORDS cfg /\
        ci_occurs kw (txt "Senior Engineer" ++ txt " " ++ txt "Junior team")).
Proof.
  cbn zeta. split; [by vm_compute|]. split; [by vm_compute|]. split.
  - exists (txt "Senior"). split; [set_solver|].
    by exists [], (txt "Senior"), (txt " Engineer Junior team").
  - exists (txt "Junior"). split; [set_solver|].
    by exists (txt "Senior Engineer "), (txt "Junior"), (txt " team").
Qed.

Lemma lower_char_idem (c : ascii) :
  Py.lower_char (Py.lower_char c) = Py.lower_char c.
Proof. destruct c as [[] [] [] [] [] [] [] []]; by vm_compute. Qed.

Lemma lower_idem (s : str) : Py.lower (Py.lower s) = Py.lower s.
Proof.
  unfold Py.lower. rewrite map_map. apply map_ext. intros c.
  apply lower_char_idem.
Qed.

(** What occurs in a lower-cased text is written in lower case. *)
Lemma occurs_lower_is_lower (kw text : str) :
  occurs kw (Py.lower text) -> is_lower kw.
Proof.
  unfold occurs, is_lower, Py.lower. intros (a & b & H).
  apply map_eq_app in H as (ta & t' & _ & _ & H).
  apply map_eq_app in H as (w & tb & _ & Hw & _).
  rewrite <- Hw. apply lower_idem.
Qed.

Lemma keyword_hit (kws : list str) (text : str) :
  existsb (fun kw => Py.contains kw (Py.lower text)) kws = true
  <-> exists kw, kw ∈ kws /\ is_lower kw /\ ci_occurs kw text.
Proof.
  rewrite any_keyword_spec. split.
  - intros (kw & Hin & H). exists kw. split; [done|].
    pose proof (occurs_lower_is_lower kw text H) as Hl.
    split; [done|]. by apply occurs_lower_ci.
  - intros (kw & Hin & Hl & H). exists kw. split; [done|].
    by apply occurs_lower_ci.
Qed.

(** C7, amended.  For every configuration, title and description,
    [_is_senior_role] and [_is_junior_role] are true exactly when some
    configured keyword occurs, as it is written in the configuration, in
    the lower-cased text "title description".  So the case of the posting
    is ignored and the case of the keyword is not: the keywords that can
    match are those written in lower case, and they match when they occur
    in the text up to case; a keyword with a capital letter never matches.
    When all the keywords are in lower case, as those of config.py are,
    this is the occurrence of a keyword in the text up to case. *)
Theorem keyword_match (cfg : config) (title description : str) :
  let text := title ++ txt " " ++ description in
  (_is_senior_role cfg title description = true
   <-> exists kw, kw ∈ SENIOR_KEYWORDS cfg /\ occurs kw (Py.lower text))
  /\ (_is_junior_role cfg title description = true
      <-> exists kw, kw ∈ JUNIOR_KEYWORDS cfg /\ occurs kw (Py.lower text))
  /\ (_is_senior_role cfg title description = true
      <-> exists kw, kw ∈ SENIOR_KEYWORDS cfg
                     /\ Py.lower kw = kw /\ ci_occurs kw text)
  /\ (_is_junior_role cfg title description = true
      <-> exists kw, kw ∈ JUNIOR_KEYWORDS cfg
                     /\ Py.lower kw = kw /\ ci_occurs kw text)
  /\ (Forall is_lower (SENIOR_KEYWORDS cfg) ->
      (_is_senior_role cfg title description = true
       <-> exists kw, kw ∈ SENIOR_KEYWORDS cfg /\ ci_occurs kw text))
  /\ (Forall is_lower (JUNIOR_KEYWORDS cfg) ->
      (_is_junior_role cfg title description = true
       <-> exists kw, kw ∈ JUNIOR_KEYWORDS cfg /\ ci_occurs kw text)).
Proof.
  intros text. subst text. unfold _is_senior_role, _is_junior_role, combined.
  split; [apply any_keyword_spec|]. split; [apply any_keyword_spec|].
  split; [apply keyword_hit|]. split; [apply keyword_hit|].
  split; intros H; by apply keyword_hit_ci.
Qed.

Lemma keyword_match_witness :
  _is_senior_role config_py (txt "SENIOR Engineer") (txt "Toronto") = true
  <-> exists kw, kw ∈ SENIOR_KEYWORDS config_py /\
        ci_occurs kw (txt "SENIOR Engineer" ++ txt " " ++ txt "Toronto").
Proof.
  exact (proj1 (proj2 (proj2 (proj2 (proj2
    (keyword_match config_py (txt "SENIOR Engineer") (txt "Toronto"))))))
    (proj1 config_py_lower)).
Defined.

End Keywords.

Section ExperienceFilter.
Import Re Scraper Spec.






End ExperienceFilter.

Section Examples.
Import Re Scraper.

(** The end-to-end cases of the specification, run on the model. *)
Example senior_ten_plus_rejected :
  _passes_experience_filter config_py []
    (txt "Looking for a Senior backend engineer, 10+ years required") = false.
Proof. by vm_compute. Qed.

Example junior_one_to_three_accepted :
  let d := txt "Junior developer, 1-3 years experience" in
  _passes_experience_filter config_py [] d = true
  /\ _is_junior_role config_py [] d = true
  /\ _extract_years_required d = Some 3%N.
Proof. by vm_compute. Qed.

Example finditer_ranges :
  finditer pat_range (txt "3-5 years, 10 to 12 Years, then 1-3-5 years")
  = [[txt "3"; txt "5"]; [txt "10"; txt "12"]; [txt "3"; txt "5"]].
Proof. by vm_compute. Qed.

Example extract_takes_the_larger_side :
  _extract_years_required (txt "8-2 years") = Some 8%N.
Proof. by vm_compute. Qed.

End Examples.

(* ===================================================================== *)
(** * scraper.py: deduplication *)
(* ===================================================================== *)

Section Deduplicate.
Import Obj Scraper.
Variable subset : list string.

Lemma drop_from_snoc seen (df : list job) (row : job) :
  drop_duplicates_from subset seen (df ++ [row])
  = drop_duplicates_from subset seen df
    ++ (if decide (subset_key subset row ∈ seen ++ (subset_key subset <$> df))
        then [] else [row]).
Proof.
  revert seen. induction df as [|r df IH]; intros seen;
    cbn [drop_duplicates_from app].
  - rewrite app_nil_r. by destruct (decide (subset_key subset row ∈ seen)).
  - destruct (decide (subset_key subset r ∈ seen)) as [Hr|Hr].
    + rewrite IH. f_equal. apply decide_ext. mem_norm.
      split; [tauto | intros [?|[->|?]]; auto].
    + rewrite IH. cbn [app]. do 2 f_equal. apply decide_ext. mem_norm. tauto.
Qed.

Lemma drop_from_sublist seen (df : list job) :
  drop_duplicates_from subset seen df `sublist_of` df.
Proof.
  revert seen. induction df as [|r df IH]; intros seen; simpl; [done|].
  destruct (decide (subset_key subset r ∈ seen)).
  - by apply sublist_cons.
  - by apply sublist_skip.
Qed.

Lemma drop_from_fresh seen (df : list job) k :
  k ∈ subset_key subset <$> drop_duplicates_from subset seen df -> k ∉ seen.
Proof.
  revert seen. induction df as [|r df IH]; intros seen;
    cbn [drop_duplicates_from].
  - by intros ?%elem_of_nil.
  - destruct (decide (subset_key subset r ∈ seen)) as [Hr|Hr]; [apply IH|].
    mem_norm. intros [-> | H]; [done|].
    apply IH in H. revert H. mem_norm. tauto.
Qed.

Lemma drop_from_NoDup seen (df : list job) :
  NoDup (subset_key subset <$> drop_duplicates_from subset seen df).
Proof.
  revert seen. induction df as [|r df IH]; intros seen;
    cbn [drop_duplicates_from].
  - constructor.
  - destruct (decide (subset_key subset r ∈ seen)) as [Hr|Hr]; [apply IH|].
    rewrite fmap_cons. constructor; [|apply IH].
    intros H%drop_from_fresh. apply H. by left.
Qed.

Lemma drop_from_keys seen (df : list job) k :
  k ∈ seen ++ (subset_key subset <$> df)
  <-> k ∈ seen ++ (subset_key subset <$> drop_duplicates_from subset seen df).
Proof.
  revert seen. induction df as [|r df IH]; intros seen;
    cbn [drop_duplicates_from]; [done|].
  destruct (decide (subset_key subset r ∈ seen)) as [Hr|Hr].
  - rewrite <- IH. mem_norm. split; [intros [?|[->|?]]; auto | tauto].
  - specialize (IH (subset_key subset r :: seen)). revert IH. mem_norm. tauto.
Qed.

Lemma keep_first_snoc (df : list job) (row : job) :
  keep_first subset (df ++ [row])
  = keep_first subset df
    ++ (if decide (subset_key subset row ∈ subset_key subset <$> df) then [] else [row]).
Proof. apply drop_from_snoc. Qed.

Lemma keep_first_keys (df : list job) k :
  k ∈ subset_key subset <$> df <-> k ∈ subset_key subset <$> keep_first subset df.
Proof. apply (drop_from_keys [] df k). Qed.

Lemma has_columns_keep_first (cols : list string) (df : list job) :
  has_columns cols (keep_first subset df) = has_columns cols df.
Proof. by destruct df. Qed.

End Deduplicate.

Section DeduplicateTheorem.
Import Obj Scraper Spec.

Lemma dup_key_eq (a b : pyval) : dup_key a = dup_key b <-> same_cell a b.
Proof.
  unfold same_cell.
  destruct a as [s| |], b as [t| |]; simpl; split;
    try done; try (by right); try (by intros [?|[? ?]]).
  by left.
Qed.

Lemma url_key_eq (a b : job) :
  subset_key ["job_url"] a = subset_key ["job_url"] b <-> same_url a b.
Proof. unfold same_url. simpl. split; [by intros [= ?] | by intros ->]. Qed.

Lemma pair_key_eq (a b : job) :
  subset_key ["company"; "title"] a = subset_key ["company"; "title"] b
  <-> same_company_title a b.
Proof.
  unfold same_company_title. rewrite <- !dup_key_eq. simpl. split.
  - by intros [= ? ?].
  - by intros [-> ->].
Qed.

Lemma key_in_Exists (subset : list string) (R : job -> job -> Prop)
    (row : job) (l : list job) :
  (forall a b, subset_key subset a = subset_key subset b <-> R a b) ->
  subset_key subset row ∈ subset_key subset <$> l <-> Exists (R row) l.
Proof.
  intros HR. rewrite list_elem_of_fmap, Exists_exists. split.
  - intros (r & Hk & Hin). exists r. split; [done|]. by apply HR.
  - intros (r & Hin & Hr). exists r. split; [by apply HR | done].
Qed.

Lemma keys_NoDup_pairwise (subset : list string) (R : job -> job -> Prop)
    (l : list job) :
  (forall a b, subset_key subset a = subset_key subset b <-> R a b) ->
  NoDup (subset_key subset <$> l) -> pairwise_not R l.
Proof.
  intros HR Hnd i j a b Hi Hj Hne Hab. apply Hne.
  apply (NoDup_lookup _ i j (subset_key subset a) Hnd).
  - by rewrite list_lookup_fmap, Hi.
  - rewrite list_lookup_fmap, Hj. simpl. f_equal. symmetry. by apply HR.
Qed.

Lemma has_columns_three (df : list job) :
  has_columns ["job_url"; "company"; "title"] df
  = has_columns ["job_url"] df && has_columns ["company"; "title"] df.
Proof.
  destruct df as [|r df]; [done|]. cbn [has_columns forallb].
  by rewrite !andb_true_r.
Qed.

Lemma has_columns_app (cols : list string) (df : list job) (row : job) :
  has_columns cols (df ++ [row]) = true -> has_columns cols df = true.
Proof. by destruct df. Qed.

(** For a frame that has the three columns, [_deduplicate] is the two
    passes; for one that lacks a column, it raises KeyError. *)
Lemma deduplicate_cases (df : list job) :
  _deduplicate df
  = if has_columns ["job_url"; "company"; "title"] df
    then Ok (deduplicate_rows df) else Raise (Exception "KeyError").
Proof.
  rewrite has_columns_three. unfold _deduplicate, drop_duplicates.
  destruct (has_columns ["job_url"] df); [|done]. cbn [bind andb].
  rewrite has_columns_keep_first.
  by destruct (has_columns ["company"; "title"] df).
Qed.

Lemma deduplicate_rows_snoc (df : list job) (row : job) :
  deduplicate_rows (df ++ [row])
  = deduplicate_rows df
    ++ (if decide (Exists (same_url row) df) then []
        else if decide (Exists (same_company_title row) (deduplicate_rows df))
             then [] else [row]).
Proof.
  unfold deduplicate_rows. rewrite keep_first_snoc.
  rewrite (decide_ext _ (Exists (same_url row) df))
    by apply key_in_Exists, url_key_eq.
  destruct (decide (Exists (same_url row) df)); [by rewrite !app_nil_r|].
  rewrite keep_first_snoc. f_equal.
  rewrite (decide_ext _ (Exists (same_company_title row)
             (keep_first ["company"; "title"] (keep_first ["job_url"] df)))).
  - done.
  - rewrite keep_first_keys. apply key_in_Exists, pair_key_eq.
Qed.

Lemma deduplicate_rows_sublist (df : list job) :
  deduplicate_rows df `sublist_of` df.
Proof. etrans; apply drop_from_sublist. Qed.

Lemma deduplicate_rows_distinct (df : list job) :
  pairwise_not same_url (deduplicate_rows df)
  /\ pairwise_not same_company_title (deduplicate_rows df).
Proof.
  split.
  - apply (keys_NoDup_pairwise ["job_url"]); [apply url_key_eq|].
    eapply sublist_NoDup; [apply (drop_from_NoDup ["job_url"] [] df)|].
    apply fmap_sublist, drop_from_sublist.
  - apply (keys_NoDup_pairwise ["company"; "title"]); [apply pair_key_eq|].
    apply drop_from_NoDup.
Qed.

(** C3. On a batch that has the three columns, deduplication drops a
    posting whose URL is that of an earlier posting of the batch, then
    drops a remaining posting whose (company, title) pair is that of an
    earlier surviving one; the first occurrence is kept each time and the
    survivors keep the order of the input.  The batch is described as it
    grows by one posting at its end; no two survivors have the same URL or
    the same pair. *)
Theorem deduplicate_first_occurrences (df : list job) (row : job) :
  has_columns ["job_url"; "company"; "title"] (df ++ [row]) = true ->
  exists kept,
    _deduplicate df = Ok kept
    /\ kept `sublist_of` df
    /\ _deduplicate (df ++ [row])
       = Ok (kept ++ if decide (Exists (same_url row) df) then []
                     else if decide (Exists (same_company_title row) kept)
                          then [] else [row])
    /\ pairwise_not same_url kept
    /\ pairwise_not same_company_title kept.
Proof.
  intros Hcols. exists (deduplicate_rows df).
  rewrite !deduplicate_cases, Hcols, (has_columns_app _ _ _ Hcols).
  split; [done|]. split; [apply deduplicate_rows_sublist|].
  split; [by rewrite deduplicate_rows_snoc|]. apply deduplicate_rows_distinct.
Qed.

Lemma deduplicate_first_occurrences_witness :
  let posting := fun url company title : pyval =>
    ({[ "job_url" := url; "company" := company; "title" := title ]} : job) in
  let a := posting (PStr (txt "u1")) (PStr (txt "Acme")) (PStr (txt "Dev")) in
  let b := posting (PStr (txt "u1")) (PStr (txt "Bolt")) (PStr (txt "Ops")) in
  let c := posting (PStr (txt "u2")) (PStr (txt "Acme")) (PStr (txt "Dev")) in
  let d := posting PNone (PStr (txt "Core")) PNone in
  let e := posting PNaN (PStr (txt "Dune")) (PStr (txt "QA")) in
  let g := posting (PStr (txt "u3")) (PStr (txt "Core")) PNaN in
  _deduplicate [a; b; c; d; e] = Ok [a; d; e]
  /\ _deduplicate ([a; b; c; d; e] ++ [g]) = Ok [a; d; e].
Proof.
  intros posting a b c d e g.
  destruct (deduplicate_first_occurrences [a; b; c; d; e] g)
    as (kept & Hk & _ & Hg & _); [reflexivity|].
  assert (H : _deduplicate [a; b; c; d; e] = Ok [a; d; e]) by (by vm_compute).
  split; [exact H|]. rewrite H in Hk. injection Hk as <-.
  rewrite Hg. by vm_compute.
Defined.

End DeduplicateTheorem.

(* ===================================================================== *)
(** * tracker.py: the local store *)
(* ===================================================================== *)

Section TrackerFacts.
Import Obj Tracker.

Lemma row_map_map {A B C} (g : B -> C) (h : A -> B) (r : row A) :
  row_map g (row_map h r) = row_map (fun x => g (h x)) r.
Proof. by destruct r. Qed.

Lemma row_map_ext {A B} (g h : A -> B) (r : row A) :
  (forall x, g x = h x) -> row_map g r = row_map h r.
Proof. intros E. destruct r. unfold row_map. simpl. by rewrite !E. Qed.

Lemma empty_is_na : [] ∈ na_values.
Proof. by left. Qed.

(** What was read is read again the same after a save. *)
Lemma read_cell_saved (s : str) :
  read_cell (to_csv_cell (read_cell s)) = read_cell s.
Proof.
  unfold read_cell at 2 3. destruct (decide (s ∈ na_values)) as [Hs|Hs]; simpl.
  - unfold read_cell. by rewrite decide_True by apply empty_is_na.
  - unfold read_cell. by rewrite decide_False.
Qed.

Lemma read_cell_str (s : str) : s ∉ na_values -> read_cell s = PStr s.
Proof. intros Hs. unfold read_cell. by rewrite decide_False. Qed.

Lemma read_cell_no_None (s : str) : read_cell s <> PNone.
Proof. unfold read_cell. by destruct (decide (s ∈ na_values)). Qed.

Lemma read_cell_PStr (s u : str) : read_cell s = PStr u -> s = u /\ u ∉ na_values.
Proof.
  unfold read_cell. destruct (decide (s ∈ na_values)); [done|].
  by intros [= ->].
Qed.

Lemma read_csv_saved (rows : list (row str)) :
  read_csv (to_csv (read_csv rows)) = read_csv rows.
Proof.
  unfold read_csv, to_csv. rewrite <- !list_fmap_compose.
  apply list_fmap_ext. intros _ r _. simpl.
  rewrite !row_map_map. apply row_map_ext, read_cell_saved.
Qed.

Lemma load_fst_saved (f : csv_file) :
  read_csv (to_csv (_load_csv f).1) = (_load_csv f).1.
Proof. destruct f as [rows|]; simpl; [apply read_csv_saved | done]. Qed.

Lemma load_save (df : frame) : (_load_csv (_save_csv df)).1 = read_csv (to_csv df).
Proof. done. Qed.

Lemma loaded_url_no_None (f : csv_file) :
  PNone ∉ job_url <$> (_load_csv f).1.
Proof.
  destruct f as [rows|]; simpl; [|by intros ?%elem_of_nil].
  unfold read_csv. rewrite <- list_fmap_compose.
  intros (r & H & _)%list_elem_of_fmap. simpl in H.
  symmetry in H. by apply read_cell_no_None in H.
Qed.

Lemma py_eq_PStr (v : pyval) (u : str) : py_eq v (PStr u) = true <-> v = PStr u.
Proof.
  destruct v as [s| |]; simpl; [|done..].
  rewrite bool_decide_eq_true. split; [by intros -> | by intros [= ->]].
Qed.

Lemma py_in_PStr (u : str) (values : list pyval) :
  py_in (PStr u) values = true <-> PStr u ∈ values.
Proof.
  unfold py_in. rewrite existsb_exists. split.
  - intros (x & Hx & ->%py_eq_PStr). by apply list_elem_of_In.
  - intros H. exists (PStr u). split; [by apply list_elem_of_In|].
    by apply py_eq_PStr.
Qed.

Lemma py_in_PNaN (values : list pyval) : py_in PNaN values = false.
Proof.
  unfold py_in. apply not_true_is_false. rewrite existsb_exists.
  intros (x & _ & H). by destruct x.
Qed.

Lemma py_in_PNone (values : list pyval) :
  PNone ∉ values -> py_in PNone values = false.
Proof.
  intros Hn. unfold py_in. apply not_true_is_false. rewrite existsb_exists.
  intros (x & Hx & H). destruct x; try done. by apply list_elem_of_In in Hx.
Qed.

(** The index lookup of the update branch always finds its row. *)
Lemma update_index_found (v : pyval) (df : frame) :
  py_in v (job_url <$> df) = true ->
  is_Some (list_find (fun r => py_eq (job_url r) v = true) df).
Proof.
  unfold py_in. rewrite existsb_exists. intros (x & Hx & Hv).
  apply list_elem_of_In, list_elem_of_fmap in Hx as (r & -> & Hr).
  destruct (list_find (fun r => py_eq (job_url r) v = true) df) eqn:E; [done|].
  rewrite list_find_None, Forall_forall in E. by destruct (E r Hr).
Qed.

Lemma upsert_found now j st rp cl npid (df : frame) (u : str) :
  get j "job_url" = PStr u -> PStr u ∈ job_url <$> df ->
  exists i r,
    list_find (fun r => job_url r = PStr u) df = Some (i, r)
    /\ upsert now j st rp cl npid df = <[i := update_row st rp cl npid r]> df.
Proof.
  intros Hu Hin. unfold upsert. rewrite Hu.
  rewrite (proj2 (py_in_PStr u _) Hin).
  assert (Hsame : list_find (fun r => py_eq (job_url r) (PStr u) = true) df
                  = list_find (fun r => job_url r = PStr u) df).
  { apply list_find_ext. intros r. apply py_eq_PStr. }
  rewrite Hsame.
  destruct (list_find (fun r => job_url r = PStr u) df) as [[i r]|] eqn:E.
  - exists i, r. split; [done|].
    apply list_find_Some in E as (Hi & _ & _).
    apply list_eq. intros k. destruct (decide (k = i)) as [->|Hk].
    + rewrite list_lookup_alter_eq, Hi. simpl.
      by rewrite list_lookup_insert_eq by (by eapply lookup_lt_Some).
    + by rewrite list_lookup_alter_ne, list_lookup_insert_ne by done.
  - rewrite list_find_None, Forall_forall in E.
    apply list_elem_of_fmap in Hin as (r & Hr & Hrin). by destruct (E r Hrin).
Qed.

Lemma upsert_absent now j st rp cl npid (df : frame) :
  py_in (get j "job_url") (job_url <$> df) = false ->
  upsert now j st rp cl npid df = df ++ [new_row now j st rp cl npid].
Proof. intros H. unfold upsert. by rewrite H. Qed.

End TrackerFacts.

Section FilterNew.
Import Obj Tracker.

Lemma tracked_urls_spec (df : frame) (v : pyval) :
  v ∈ tracked_urls df <-> isna v = false /\ v ∈ job_url <$> df.
Proof. unfold tracked_urls. rewrite list_elem_of_filter. tauto. Qed.

Lemma isin_tracked (df : frame) (v : pyval) :
  isin v (tracked_urls df) = true <-> v ∈ tracked_urls df.
Proof.
  unfold isin. rewrite andb_true_iff, negb_true_iff, bool_decide_eq_true.
  split; [tauto|]. intros H. split; [|done].
  by apply tracked_urls_spec in H as [? _].
Qed.

Lemma filter_new_jobs_fst (jobs_df : list job) (f : csv_file) :
  (filter_new_jobs jobs_df f).1
  = filter (fun j => get j "job_url" ∉ tracked_urls (_load_csv f).1) jobs_df.
Proof.
  destruct jobs_df as [|j0 jobs]; [done|].
  unfold filter_new_jobs. destruct (_load_csv f) as [tracked f'] eqn:E. simpl.
  apply list_filter_iff. intros j.
  rewrite <- isin_tracked. by destruct (isin _ _).
Qed.

(** C4. [filter_new_jobs] returns, in the order of the input, exactly the
    postings whose URL is not among the URLs the tracker file holds; it
    returns nothing when every URL is tracked and the whole input when
    none is. *)
Theorem filter_new_jobs_untracked (jobs_df : list job) (f : csv_file) :
  let tracked := tracked_urls (_load_csv f).1 in
  let new := (filter_new_jobs jobs_df f).1 in
  new = filter (fun j => get j "job_url" ∉ tracked) jobs_df
  /\ (Forall (fun j => get j "job_url" ∈ tracked) jobs_df -> new = [])
  /\ (Forall (fun j => get j "job_url" ∉ tracked) jobs_df -> new = jobs_df)
  /\ (forall v, v ∈ tracked
        <-> isna v = false /\ v ∈ job_url <$> (_load_csv f).1).
Proof.
  intros tracked new. subst new. rewrite filter_new_jobs_fst. fold tracked.
  split; [done|]. split; [|split].
  - intros Hall. induction Hall as [|j l Hj _ IH]; [done|].
    rewrite filter_cons_False by (intros Hn; by apply Hn). exact IH.
  - intros Hall. induction Hall as [|j l Hj _ IH]; [done|].
    rewrite filter_cons_True by done. by rewrite IH.
  - intros v. apply tracked_urls_spec.
Qed.

Lemma filter_new_jobs_untracked_witness :
  let seen : job := {[ "job_url" := PStr (txt "https://jobs.example/1") ]} in
  let fresh : job := {[ "job_url" := PStr (txt "https://jobs.example/2") ]} in
  let f : csv_file :=
    Some [row_map to_csv_cell
            (new_row (txt "2024-05-01T09:00:00") seen (txt "Applied") [] [] [])] in
  (filter_new_jobs [seen; seen] f).1 = []
  /\ (filter_new_jobs [fresh; fresh] f).1 = [fresh; fresh].
Proof.
  intros seen fresh f. split.
  - apply (proj1 (proj2 (filter_new_jobs_untracked [seen; seen] f))).
    repeat constructor.
  - apply (proj1 (proj2 (proj2 (filter_new_jobs_untracked [fresh; fresh] f)))).
    repeat constructor; by vm_compute; intros [[=]|H]%elem_of_cons;
      try by apply elem_of_nil in H.
Defined.

End FilterNew.

Section Upsert.
Import Obj Tracker.

Lemma log_job_to_csv_eq now j st rp cl npid (f : csv_file) :
  log_job_to_csv now j st rp cl npid f
  = Some (to_csv (upsert now j st rp cl npid (_load_csv f).1)).
Proof. unfold log_job_to_csv. by destruct (_load_csv f). Qed.

Lemma py_in_url_exists (j : job) (f : csv_file) :
  py_in (get j "job_url") (job_url <$> (_load_csv f).1) = true
  <-> exists u, get j "job_url" = PStr u /\ PStr u ∈ job_url <$> (_load_csv f).1.
Proof.
  destruct (get j "job_url") as [u| |] eqn:E.
  - rewrite py_in_PStr. split; [by exists u | by intros (? & [= <-] & ?)].
  - rewrite py_in_PNone by apply loaded_url_no_None.
    split; [done | by intros (? & ? & _)].
  - rewrite py_in_PNaN. split; [done | by intros (? & ? & _)].
Qed.

(** Rows of a loaded frame are read back as they are. *)
Lemma loaded_row_saved (f : csv_file) (i : nat) (r : row pyval) :
  (_load_csv f).1 !! i = Some r ->
  row_map (fun v => read_cell (to_csv_cell v)) r = r.
Proof.
  intros Hi. pose proof (load_fst_saved f) as H.
  apply (f_equal (fun l => l !! i)) in H. rewrite Hi in H.
  unfold read_csv, to_csv in H. rewrite !list_lookup_fmap, Hi in H.
  simpl in H. rewrite row_map_map in H. by injection H.
Qed.

Lemma upsert_length_found now j st rp cl npid (df : frame) :
  py_in (get j "job_url") (job_url <$> df) = true ->
  length (upsert now j st rp cl npid df) = length df.
Proof.
  intros H. unfold upsert. rewrite H.
  destruct (list_find _ df) as [[i r]|]; [|done]. apply length_alter.
Qed.

Lemma upsert_keeps_url now j st rp cl npid (df : frame) (u : str) :
  get j "job_url" = PStr u ->
  PStr u ∈ job_url <$> upsert now j st rp cl npid df.
Proof.
  intros Hu. destruct (py_in (get j "job_url") (job_url <$> df)) eqn:E.
  - rewrite Hu in E. apply py_in_PStr in E.
    destruct (upsert_found now j st rp cl npid df u Hu E) as (i & r & Hf & ->).
    apply list_find_Some in Hf as (Hi & Hr & _).
    apply list_elem_of_fmap. exists (update_row st rp cl npid r).
    split; [done|]. apply list_elem_of_lookup. exists i.
    apply list_lookup_insert_eq. by eapply lookup_lt_Some.
  - rewrite upsert_absent by done. rewrite fmap_app, elem_of_app. right.
    simpl. apply list_elem_of_singleton. unfold get_or.
    unfold get in Hu. destruct (j !! "job_url"); simpl in *; [done|discriminate].
Qed.

End Upsert.

Section UpsertTheorems.
Import Obj Tracker.

(** C5 as stated fails twice over.  An upsert with an empty external id
    leaves the stored id as it was instead of overwriting it; and a job
    whose URL is the empty string is appended again at the second call,
    because the tracker reads the empty cell back as a missing value. *)
Lemma upsert_counterexample :
  let j : job := {[ "job_url" := PStr (txt "https://jobs.example/1") ]} in
  let f1 := log_job_to_csv (txt "t0") j (txt "Ready to Apply") [] []
              (txt "page-1") None in
  let f2 := log_job_to_csv (txt "t1") j (txt "Applied") [] [] [] f1 in
  let e : job := {[ "job_url" := PStr [] ]} in
  let g1 := log_job_to_csv (txt "t0") e (txt "Ready to Apply") [] [] [] None in
  let g2 := log_job_to_csv (txt "t1") e (txt "Ready to Apply") [] [] [] g1 in
  (notion_page_id <$> default [] f2) = [txt "page-1"]
  /\ (job_url <$> default [] g2) = [[]; []].
Proof. cbn zeta. split; by vm_compute. Qed.

(** C5, amended.  The file is taken as [pd.read_csv] reads it, and the
    cells the call writes hold no carriage return.  When the job's URL is
    already in the store, the first row with that URL gets the supplied
    status, resume path and cover letter path, and the supplied external id
    when that id is not empty (an empty id leaves the stored one); no row
    is added.  When the URL is not in the store, one row is appended with
    all thirteen fields filled in, the scrape timestamp being the current
    time when the job has none.  For a URL that the tracker reads back as
    a string (not empty and no missing-value marker), a second call for
    the same URL never adds a row. *)
Theorem log_job_to_csv_upsert
    (now st rp cl npid : str) (j : job) (f : csv_file) :
  Spec.no_cr (log_job_to_csv now j st rp cl npid f) ->
  let df := (_load_csv f).1 in
  (forall u, get j "job_url" = PStr u -> PStr u ∈ job_url <$> df ->
     exists i r,
       list_find (fun r => job_url r = PStr u) df = Some (i, r)
       /\ log_job_to_csv now j st rp cl npid f
          = Some (to_csv (<[i :=
               {| job_url := job_url r; title := title r;
                  company := company r; location := location r;
                  site := site r; date_posted := date_posted r;
                  scraped_at := scraped_at r; applied_at := applied_at r;
                  status := PStr st;
                  resume_path := PStr rp;
                  cover_letter_path := PStr cl;
                  notion_page_id :=
                    if decide (npid = []) then notion_page_id r else PStr npid;
                  notes := notes r |}]> df)))
  /\ ((forall u, get j "job_url" = PStr u -> PStr u ∉ job_url <$> df) ->
      log_job_to_csv now j st rp cl npid f
      = Some (to_csv df ++
          [{| job_url := to_csv_cell (get_or j "job_url" (PStr []));
              title := to_csv_cell (get_or j "title" (PStr []));
              company := to_csv_cell (get_or j "company" (PStr []));
              location := to_csv_cell (get_or j "location" (PStr []));
              site := to_csv_cell (get_or j "site" (PStr []));
              date_posted := py_str (get_or j "date_posted" (PStr []));
              scraped_at :=
                match j !! "scraped_at" with
                | Some v => to_csv_cell v
                | None => now
                end;
              applied_at := [];
              status := st;
              resume_path := rp;
              cover_letter_path := cl;
              notion_page_id := npid;
              notes := [] |}]))
  /\ (forall u, get j "job_url" = PStr u -> u ∉ na_values ->
      forall now2 st2 rp2 cl2 npid2,
      exists rows1 rows2,
        log_job_to_csv now j st rp cl npid f = Some rows1
        /\ log_job_to_csv now2 j st2 rp2 cl2 npid2 (Some rows1) = Some rows2
        /\ (Spec.no_cr (Some rows2) -> length rows2 = length rows1)).
Proof.
  intros _ df. split; [|split].
  - intros u Hu Hin.
    destruct (upsert_found now j st rp cl npid df u Hu Hin) as (i & r & Hf & Hup).
    exists i, r. split; [done|]. rewrite log_job_to_csv_eq. fold df.
    rewrite Hup. do 3 f_equal. unfold update_row. by destruct npid.
  - intros Habs. rewrite log_job_to_csv_eq. fold df.
    rewrite upsert_absent.
    + unfold to_csv. rewrite fmap_app. do 2 f_equal. simpl. unfold new_row, row_map.
      simpl. do 2 f_equal. unfold get_or. by destruct (j !! "scraped_at").
    + apply not_true_is_false. intros (u & Hu & Hin)%py_in_url_exists.
      by apply (Habs u Hu).
  - intros u Hu Hna now2 st2 rp2 cl2 npid2.
    rewrite !log_job_to_csv_eq. fold df. eexists _, _.
    split; [done|]. split; [done|]. intros _. simpl.
    unfold to_csv at 1 3. rewrite !length_fmap.
    rewrite upsert_length_found; [by unfold read_csv, to_csv; rewrite !length_fmap|].
    rewrite Hu. apply py_in_PStr.
    pose proof (upsert_keeps_url now j st rp cl npid df u Hu) as Hk.
    apply list_elem_of_fmap in Hk as (r & Hr & Hrin).
    apply list_elem_of_fmap.
    exists (row_map read_cell (row_map to_csv_cell r)). split.
    + simpl. rewrite <- Hr. simpl. by rewrite read_cell_str.
    + unfold read_csv, to_csv. rewrite <- list_fmap_compose.
      apply list_elem_of_fmap. by exists r.
Qed.

Lemma log_job_to_csv_upsert_witness :
  let j : job := {[ "job_url" := PStr (txt "https://jobs.example/1") ]} in
  exists rows1 rows2,
    log_job_to_csv (txt "t0") j (txt "Ready to Apply") [] [] [] None = Some rows1
    /\ log_job_to_csv (txt "t1") j (txt "Applied") [] [] [] (Some rows1) = Some rows2
    /\ (Spec.no_cr (Some rows2) -> length rows2 = length rows1).
Proof.
  intros j.
  assert (Hcr : Spec.no_cr (log_job_to_csv (txt "t0") j (txt "Ready to Apply")
                              [] [] [] None)).
  { apply (bool_decide_unpack _). by vm_compute. }
  apply (proj2 (proj2 (log_job_to_csv_upsert (txt "t0") (txt "Ready to Apply")
                         [] [] [] j None Hcr))
           (txt "https://jobs.example/1")).
  - reflexivity.
  - vm_compute. intros H. repeat (apply elem_of_cons in H as [H|H]; [discriminate|]).
    by apply elem_of_nil in H.
Defined.

End UpsertTheorems.

Section ExternalId.
Import Obj Tracker.

Lemma rewritten_spec (s : str) :
  to_csv_cell (read_cell s) = Spec.rewritten s.
Proof.
  unfold read_cell, Spec.rewritten. by destruct (decide (s ∈ na_values)).
Qed.

Lemma row_rewritten (r : row str) :
  row_map to_csv_cell (row_map read_cell r) = row_map Spec.rewritten r.
Proof. unfold row_map. simpl. by rewrite !rewritten_spec. Qed.

Lemma list_find_read (u : str) (rows : list (row str)) :
  u ∉ na_values ->
  list_find (fun r : row pyval => job_url r = PStr u) (read_csv rows)
  = prod_map id (row_map read_cell)
      <$> list_find (fun r : row str => job_url r = u) rows.
Proof.
  intros Hu. unfold read_csv. rewrite list_find_fmap. f_equal.
  apply list_find_ext. intros r. simpl. split.
  - by intros [? _]%read_cell_PStr.
  - intros ->. by apply read_cell_str.
Qed.

(** C10 as stated fails: a cell of the row that holds a text the tracker
    reads as a missing value (here the notes "N/A") does not stay as it
    was, it is written back empty; and so is a stored external id that is
    such a text (here "NA"), although it is not empty. *)
Lemma external_id_counterexample :
  let j : job := {[ "job_url" := PStr (txt "https://jobs.example/1") ]} in
  let stored := fun id : string =>
    {| job_url := txt "https://jobs.example/1"; title := txt "Developer";
       company := txt "Acme"; location := txt "Toronto"; site := txt "indeed";
       date_posted := txt "2026-01-05"; scraped_at := txt "t0";
       applied_at := []; status := txt "Ready to Apply";
       resume_path := txt "cv.pdf"; cover_letter_path := txt "cl.pdf";
       notion_page_id := txt id; notes := txt "N/A" |} in
  (notes <$> default [] (log_job_to_csv (txt "t1") j (txt "Applied") [] [] []
                           (Some [stored "page-1"]))) = [[]]
  /\ (notion_page_id
        <$> default [] (log_job_to_csv (txt "t1") j (txt "Applied") [] [] []
                          (Some [stored "page-1"]))) = [txt "page-1"]
  /\ (notion_page_id
        <$> default [] (log_job_to_csv (txt "t1") j (txt "Applied") [] [] []
                          (Some [stored "NA"]))) = [[]].
Proof. cbn zeta. split; [|split]; by vm_compute. Qed.

(** C10, amended.  The store holds a row for the job's URL, a string the
    tracker reads back as such, and the cells the call writes hold no
    carriage return.  An upsert with an empty external id then adds no row
    and writes, into the first row with that URL, the supplied status,
    resume path and cover letter path, empty or not.  Every other cell of
    that row, the external id among them, and every cell of the other rows
    is written back as the tracker read it: unchanged, unless it held a
    text that is read as a missing value (NA, N/A, null, None, ...), which
    is written back empty.  So an external id that is not such a text, and
    in particular not empty, is kept. *)
Theorem upsert_keeps_external_id
    (now st rp cl u : str) (j : job) (rows : list (row str))
    (i : nat) (r : row str) :
  get j "job_url" = PStr u ->
  u ∉ na_values ->
  list_find (fun r : row str => job_url r = u) rows = Some (i, r) ->
  Spec.no_cr (log_job_to_csv now j st rp cl [] (Some rows)) ->
  exists rows',
    log_job_to_csv now j st rp cl [] (Some rows) = Some rows'
    /\ length rows' = length rows
    /\ rows' !! i
       = Some {| job_url := u;
                 title := Spec.rewritten (title r);
                 company := Spec.rewritten (company r);
                 location := Spec.rewritten (location r);
                 site := Spec.rewritten (site r);
                 date_posted := Spec.rewritten (date_posted r);
                 scraped_at := Spec.rewritten (scraped_at r);
                 applied_at := Spec.rewritten (applied_at r);
                 status := st;
                 resume_path := rp;
                 cover_letter_path := cl;
                 notion_page_id := Spec.rewritten (notion_page_id r);
                 notes := Spec.rewritten (notes r) |}
    /\ (forall k rk, k <> i -> rows !! k = Some rk ->
          rows' !! k = Some (row_map Spec.rewritten rk))
    /\ (forall s, Spec.rewritten s = s <-> s = [] \/ s ∉ na_values)
    /\ (notion_page_id r ∉ na_values ->
        notion_page_id <$> rows' !! i = Some (notion_page_id r)
        /\ notion_page_id r <> []).
Proof.
  intros Hu Hna Hfind _.
  pose proof Hfind as (Hi & Hur & _)%list_find_Some.
  assert (Hfind' : list_find (fun r : row pyval => job_url r = PStr u)
                     (read_csv rows) = Some (i, row_map read_cell r)).
  { rewrite list_find_read by done. by rewrite Hfind. }
  assert (Hin : PStr u ∈ job_url <$> read_csv rows).
  { apply list_find_Some in Hfind' as (Hi' & Hur' & _).
    apply list_elem_of_fmap. exists (row_map read_cell r). split; [done|].
    apply list_elem_of_lookup. by exists i. }
  destruct (upsert_found now j st rp cl [] (read_csv rows) u Hu Hin)
    as (i' & r' & Hf' & Hup).
  rewrite Hfind' in Hf'. injection Hf' as <- <-.
  assert (Hlt : i < length (read_csv rows)).
  { unfold read_csv. rewrite length_fmap. by eapply lookup_lt_Some. }
  assert (Hrow : forall s, Spec.rewritten s = s <-> s = [] \/ s ∉ na_values).
  { intros s. unfold Spec.rewritten.
    destruct (decide (s ∈ na_values)) as [Hs|Hs].
    - split; [by left | by intros [?|?]].
    - split; [by right | done]. }
  eexists. split; [by rewrite log_job_to_csv_eq|]. simpl. rewrite Hup.
  assert (Hi_row : to_csv (<[i := update_row st rp cl [] (row_map read_cell r)]>
                             (read_csv rows)) !! i
            = Some {| job_url := u;
                      title := Spec.rewritten (title r);
                      company := Spec.rewritten (company r);
                      location := Spec.rewritten (location r);
                      site := Spec.rewritten (site r);
                      date_posted := Spec.rewritten (date_posted r);
                      scraped_at := Spec.rewritten (scraped_at r);
                      applied_at := Spec.rewritten (applied_at r);
                      status := st;
                      resume_path := rp;
                      cover_letter_path := cl;
                      notion_page_id := Spec.rewritten (notion_page_id r);
                      notes := Spec.rewritten (notes r) |}).
  { unfold to_csv. rewrite list_lookup_fmap, list_lookup_insert_eq by done.
    simpl. unfold row_map, update_row. simpl. rewrite !rewritten_spec.
    rewrite Hur. f_equal. f_equal. apply Hrow. by right. }
  split; [|split; [done|split; [|split; [done|]]]].
  - unfold to_csv, read_csv. by rewrite length_fmap, length_insert, length_fmap.
  - intros k rk Hk Hrk. unfold to_csv.
    rewrite list_lookup_fmap, list_lookup_insert_ne by done.
    unfold read_csv. rewrite list_lookup_fmap, Hrk. simpl.
    by rewrite row_rewritten.
  - intros Hid. rewrite Hi_row. simpl. split.
    + f_equal. apply Hrow. by right.
    + intros E. apply Hid. rewrite E. apply empty_is_na.
Qed.

Lemma upsert_keeps_external_id_witness :
  let j : job := {[ "job_url" := PStr (txt "https://jobs.example/1") ]} in
  let r := {| job_url := txt "https://jobs.example/1"; title := txt "Developer";
              company := txt "Acme"; location := txt "Toronto";
              site := txt "indeed"; date_posted := txt "2026-01-05";
              scraped_at := txt "t0"; applied_at := [];
              status := txt "Ready to Apply"; resume_path := txt "cv.pdf";
              cover_letter_path := txt "cl.pdf";
              notion_page_id := txt "page-1"; notes := txt "call back" |} in
  exists rows',
    log_job_to_csv (txt "t1") j [] [] [] [] (Some [r]) = Some rows'
    /\ rows' = [{| job_url := txt "https://jobs.example/1";
                   title := txt "Developer";
                   company := txt "Acme"; location := txt "Toronto";
                   site := txt "indeed"; date_posted := txt "2026-01-05";
                   scraped_at := txt "t0"; applied_at := [];
                   status := []; resume_path := [];
                   cover_letter_path := [];
                   notion_page_id := txt "page-1";
                   notes := txt "call back" |}].
Proof.
  intros j r.
  edestruct (upsert_keeps_external_id (txt "t1") [] [] []
               (txt "https://jobs.example/1") j [r] 0 r)
    as (rows' & Hrows & _).
  - reflexivity.
  - vm_compute. intros H.
    repeat (apply elem_of_cons in H as [H|H]; [discriminate|]).
    by apply elem_of_nil in H.
  - by vm_compute.
  - apply (bool_decide_unpack _). by vm_compute.
  - exists rows'. split; [exact Hrows|].
    vm_compute in Hrows. by injection Hrows as <-.
Defined.

End ExternalId.

(* ===================================================================== *)
(** * tracker.py: the remote sink and the composite operation *)
(* ===================================================================== *)

Section TrackJob.
Import Obj Tracker.

Lemma create_notion_page_cases (sv : services) (j : job) (st rp cl : str) :
  create_notion_page sv j st rp cl
  = Ok match Client sv with
       | Raise _ => None
       | Ok _ =>
           match pages_create sv (page_properties sv j st rp cl) with
           | Raise _ => None
           | Ok page => page !! "id"
           end
       end.
Proof.
  unfold create_notion_page, try_except, bind, getitem.
  destruct (Client sv); [|done].
  destruct (pages_create sv _) as [page|]; [|done].
  by destruct (page !! "id").
Qed.

(** C6. [create_notion_page] never raises: it returns the id of the page
    when the client, the request and the lookup of the id all succeed, and
    [None] when any of them fails.  [track_job] calls it first and then
    [log_job_to_csv]; so it never raises either, and whatever the remote
    sink answered the tracker file is updated for the job.  (The file is
    taken as [pd.read_csv] reads it, and the cells written hold no carriage
    return.)  When the job's URL is in the file, the first row with that
    URL holds afterwards the supplied status and paths, and the page id
    when there is one; no row is added.  When it is not, one row is added
    at the end, with the job's URL, the supplied status and paths, and the
    page id or the empty string. *)
Theorem track_job_always_logs
    (sv : services) (now st rp cl : str) (j : job) (f : csv_file) :
  let remote :=
    match Client sv with
    | Raise _ => None
    | Ok _ =>
        match pages_create sv (page_properties sv j st rp cl) with
        | Raise _ => None
        | Ok page => page !! "id"
        end
    end in
  let df := (_load_csv f).1 in
  Spec.no_cr (log_job_to_csv now j st rp cl (default [] remote) f) ->
  create_notion_page sv j st rp cl = Ok remote
  /\ exists rows',
       track_job sv now j st rp cl f = Ok (remote, Some rows')
       /\ (forall u, get j "job_url" = PStr u -> PStr u ∈ job_url <$> df ->
           exists i r r',
             list_find (fun r => job_url r = PStr u) df = Some (i, r)
             /\ length rows' = length df
             /\ rows' !! i = Some r'
             /\ job_url r' = u /\ status r' = st
             /\ resume_path r' = rp /\ cover_letter_path r' = cl
             /\ notion_page_id r'
                = match remote with
                  | Some (c :: id) => c :: id
                  | _ => to_csv_cell (notion_page_id r)
                  end)
       /\ ((forall u, get j "job_url" = PStr u -> PStr u ∉ job_url <$> df) ->
           exists r',
             rows' = to_csv df ++ [r']
             /\ job_url r' = to_csv_cell (get_or j "job_url" (PStr []))
             /\ title r' = to_csv_cell (get_or j "title" (PStr []))
             /\ company r' = to_csv_cell (get_or j "company" (PStr []))
             /\ status r' = st
             /\ resume_path r' = rp /\ cover_letter_path r' = cl
             /\ notion_page_id r' = default [] remote).
Proof.
  intros remote df _.
  assert (H : create_notion_page sv j st rp cl = Ok remote)
    by apply create_notion_page_cases.
  split; [done|].
  assert (Hid : or_empty remote = default [] remote)
    by (by destruct remote as [[|c s]|]).
  eexists. split.
  { unfold track_job. rewrite H. simpl. by rewrite log_job_to_csv_eq. }
  fold df. rewrite Hid. split.
  - intros u Hu Hin.
    destruct (upsert_found now j st rp cl (default [] remote) df u Hu Hin)
      as (i & r & Hf & ->).
    pose proof Hf as (Hi & Hur & _)%list_find_Some.
    assert (Hlt : i < length df) by (by eapply lookup_lt_Some).
    exists i, r, (row_map to_csv_cell
                    (update_row st rp cl (default [] remote) r)).
    split; [done|]. split; [|split].
    + unfold to_csv. by rewrite length_fmap, length_insert.
    + unfold to_csv. by rewrite list_lookup_fmap, list_lookup_insert_eq.
    + simpl. rewrite Hur. repeat (split; [done|]).
      by destruct remote as [[|c s]|].
  - intros Habs. rewrite upsert_absent.
    + exists (row_map to_csv_cell
                (new_row now j st rp cl (default [] remote))).
      split; [unfold to_csv; by rewrite fmap_app|]. done.
    + apply not_true_is_false. intros (u & Hu & Hin)%py_in_url_exists.
      by apply (Habs u Hu).
Qed.

Lemma track_job_always_logs_witness :
  let down := {| Client := Raise (Exception "APIResponseError");
                 to_datetime := fun s => Ok s;
                 pages_create := fun _ => Raise (Exception "HTTPError") |} in
  let j : job := {[ "job_url" := PStr (txt "https://jobs.example/1") ]} in
  create_notion_page down j (txt "Applied") (txt "cv.pdf") (txt "cl.pdf")
  = Ok None
  /\ exists rows',
       track_job down (txt "t0") j (txt "Applied") (txt "cv.pdf") (txt "cl.pdf")
         None = Ok (None, Some rows')
       /\ (job_url <$> rows') = [txt "https://jobs.example/1"]
       /\ (status <$> rows') = [txt "Applied"]
       /\ (resume_path <$> rows') = [txt "cv.pdf"]
       /\ (notion_page_id <$> rows') = [[]].
Proof.
  intros down j.
  destruct (track_job_always_logs down (txt "t0") (txt "Applied")
              (txt "cv.pdf") (txt "cl.pdf") j None)
    as (Hc & rows' & Ht & _ & Hnew).
  - apply (bool_decide_unpack _). by vm_compute.
  - split; [exact Hc|]. exists rows'. split; [exact Ht|].
    destruct Hnew as (r' & -> & H1 & _ & _ & H2 & H3 & _ & H4).
    + intros u _ H. by apply elem_of_nil in H.
    + simpl. by rewrite H1, H2, H3, H4.
Defined.

End TrackJob.

(* ===================================================================== *)
(** * generator.py: splitting the answer of the generation service *)
(* ===================================================================== *)

Section SplitFacts.
Import Py Spec.




Lemma find_Some (sep hay : str) (i : nat) :
  find sep hay = Some i ->
  leftmost_split sep hay (take i hay) (drop (i + length sep) hay)
  /\ length (take i hay) = i.
Proof.
  revert i. induction hay as [|c hay IH]; intros i; cbn [find].
  - destruct (startswith sep []) eqn:E; [|done]. intros [= <-].
    apply startswith_spec in E as [b Hb]. destruct sep; [|done]. simpl in *.
    subst b. split; [split|done]; [done|]. intros; simpl; lia.
  - destruct (startswith sep (c :: hay)) eqn:E.
    + intros [= <-]. apply startswith_spec in E as [b Hb].
      split; [split|done].
      * cbn [take Nat.add app]. rewrite Hb at 1. f_equal.
        by rewrite Hb, drop_app_length.
      * intros; simpl; lia.
    + destruct (find sep hay) as [i'|] eqn:F; [|done]. simpl. intros [= <-].
      destruct (IH i' eq_refl) as [[Heq Hmin] Hlen].
      split; [split|].
      * simpl. by rewrite <- Heq.
      * intros a' b' H. destruct a' as [|x a']; simpl in H.
        -- assert (startswith sep (c :: hay) = true) as Hs
             by (apply startswith_spec; by exists b').
           congruence.
        -- injection H as -> H. specialize (Hmin a' b' H).
           simpl. rewrite Hlen in *. lia.
      * simpl. by rewrite Hlen.
Qed.

Lemma find_None (sep hay : str) : find sep hay = None -> ~ Spec.occurs sep hay.
Proof.
  induction hay as [|c hay IH]; simpl.
  - destruct (startswith sep []) eqn:E; [done|]. intros _ (a & b & H).
    destruct a; [|done]. simpl in H.
    assert (startswith sep [] = true) by (apply startswith_spec; by exists b).
    congruence.
  - destruct (startswith sep (c :: hay)) eqn:E; [done|].
    destruct (find sep hay) eqn:F; [done|]. intros _ (a & b & H).
    destruct a as [|x a]; simpl in H.
    + assert (startswith sep (c :: hay) = true)
        by (apply startswith_spec; by exists b).
      congruence.
    + injection H as -> H. apply IH; [done|]. by exists a, b.
Qed.

(** The leftmost split is unique. *)
Lemma leftmost_split_unique (sep hay a b a' b' : str) :
  leftmost_split sep hay a b -> leftmost_split sep hay a' b' -> a = a' /\ b = b'.
Proof.
  intros [H1 M1] [H2 M2].
  pose proof (M1 _ _ H2). pose proof (M2 _ _ H1).
  assert (Hlen : length a = length a') by lia.
  rewrite H1 in H2. apply app_inj_1 in H2 as [-> H2]; [|done].
  split; [done|]. by apply app_inv_head in H2.
Qed.

Lemma lstrip_spec (s : str) :
  exists l, s = l ++ lstrip s /\ blank l
            /\ (forall c t, lstrip s = c :: t -> isspace c = false).
Proof.
  induction s as [|c s (l & Hl & Hb & Hh)]; simpl.
  - exists []. split; [done|]. split; [constructor | done].
  - destruct (isspace c) eqn:E.
    + exists (c :: l). split; [by rewrite Hl at 1|]. split; [by constructor | done].
    + exists []. split; [done|]. split; [constructor|]. by intros ? ? [= <- _].
Qed.

Lemma rstrip_spec (s : str) :
  exists r, s = rstrip s ++ r /\ blank r
            /\ (forall c t, rstrip s = t ++ [c] -> isspace c = false).
Proof.
  unfold rstrip. destruct (lstrip_spec (rev s)) as (l & Hl & Hb & Hh).
  exists (rev l). split; [|split].
  - rewrite <- rev_app_distr, <- Hl. by rewrite rev_involutive.
  - unfold blank in *. rewrite Forall_forall in *. intros c Hc.
    apply Hb. apply list_elem_of_In, in_rev. by apply list_elem_of_In.
  - intros c t H. apply (Hh c (rev t)).
    apply (f_equal (@rev ascii)) in H.
    by rewrite rev_involutive, rev_app_distr in H.
Qed.

Lemma strip_spec (s : str) :
  exists l r, s = l ++ strip s ++ r /\ blank l /\ blank r /\ trimmed (strip s).
Proof.
  unfold strip. destruct (lstrip_spec s) as (l & Hl & Hbl & Hh).
  destruct (rstrip_spec (lstrip s)) as (r & Hr & Hbr & Ht).
  exists l, r. split; [by rewrite <- Hr|]. split; [done|]. split; [done|].
  split; [|done].
  intros c t H. rewrite H in Hr. simpl in Hr. by apply (Hh c (t ++ r)).
Qed.

Lemma strip_trimmed (s : str) : trimmed s -> strip s = s.
Proof.
  intros [Hh Ht]. unfold strip.
  assert (Hl : lstrip s = s).
  { destruct s as [|c t]; [done|]. simpl. by rewrite (Hh c t). }
  rewrite Hl. unfold rstrip.
  destruct (rev s) as [|c t] eqn:E; simpl.
  - by apply (f_equal (@rev ascii)) in E; rewrite rev_involutive in E.
  - assert (Hs : s = rev t ++ [c]).
    { apply (f_equal (@rev ascii)) in E. by rewrite rev_involutive in E. }
    rewrite (Ht c (rev t) Hs). simpl. by rewrite Hs.
Qed.

End SplitFacts.

Section TailorResume.
Import Py Generator Spec.

Lemma tailor_resume_found (full_output a b : str) :
  leftmost_split KEYWORD_REPORT full_output a b ->
  tailor_resume full_output = (strip a, strip b).
Proof.
  intros Hsplit. unfold tailor_resume.
  assert (Hocc : contains KEYWORD_REPORT full_output = true).
  { apply contains_spec. destruct Hsplit as [H _]. by exists a, b. }
  rewrite Hocc. unfold split_once.
  destruct (find KEYWORD_REPORT full_output) as [i|] eqn:F.
  - apply find_Some in F as [F _].
    by destruct (leftmost_split_unique _ _ _ _ _ _ F Hsplit) as [-> ->].
  - apply find_None in F. by apply contains_spec in Hocc.
Qed.

Lemma tailor_resume_absent (full_output : str) :
  ~ Spec.occurs KEYWORD_REPORT full_output ->
  tailor_resume full_output
  = (strip full_output, txt "Keyword report not generated.").
Proof.
  intros Hn. unfold tailor_resume.
  destruct (contains KEYWORD_REPORT full_output) eqn:E.
  - by apply contains_spec in E.
  - f_equal.
Qed.

Lemma strip_is_trimmed (s : str) : trimmed (strip s).
Proof. by destruct (strip_spec s) as (_ & _ & _ & _ & _ & H). Qed.

(** C8. The answer is cut at the leftmost "===KEYWORD_REPORT===": what
    comes before is the resume source, what comes after is the keyword
    report.  Without the delimiter the whole answer is the resume source
    and the report is the fixed text "Keyword report not generated.".
    Both parts are returned with the white space at their ends removed. *)
Theorem tailor_resume_split (full_output : str) :
  (forall a b, leftmost_split KEYWORD_REPORT full_output a b ->
     tailor_resume full_output = (strip a, strip b))
  /\ (~ Spec.occurs KEYWORD_REPORT full_output ->
      tailor_resume full_output
      = (strip full_output, txt "Keyword report not generated."))
  /\ trimmed (tailor_resume full_output).1
  /\ trimmed (tailor_resume full_output).2
  /\ (forall s, exists l r,
        s = l ++ strip s ++ r /\ blank l /\ blank r /\ trimmed (strip s)).
Proof.
  split; [apply tailor_resume_found|]. split; [apply tailor_resume_absent|].
  split; [|split; [|apply strip_spec]].
  - unfold tailor_resume.
    destruct (contains KEYWORD_REPORT full_output);
      [destruct (split_once KEYWORD_REPORT full_output) as [[a b]|]|];
      apply strip_is_trimmed.
  - unfold tailor_resume.
    destruct (contains KEYWORD_REPORT full_output);
      [destruct (split_once KEYWORD_REPORT full_output) as [[a b]|]|];
      apply strip_is_trimmed.
Qed.

Lemma tailor_resume_split_witness :
  tailor_resume
    (txt " \documentclass{resume} ===KEYWORD_REPORT=== java ===KEYWORD_REPORT=== ")
  = (txt "\documentclass{resume}", txt "java ===KEYWORD_REPORT===")
  /\ tailor_resume (txt " \documentclass{resume} ")
     = (txt "\documentclass{resume}", txt "Keyword report not generated.").
Proof.
  split.
  - apply (proj1 (tailor_resume_split _)
             (txt " \documentclass{resume} ")
             (txt " java ===KEYWORD_REPORT=== ")).
    split; [reflexivity|]. intros a' b' H.
    assert (Hf : find KEYWORD_REPORT
      (txt " \documentclass{resume} ===KEYWORD_REPORT=== java ===KEYWORD_REPORT=== ")
      = Some 24) by (vm_compute; reflexivity).
    apply find_Some in Hf as [[_ Hmin] _].
    specialize (Hmin a' b' H). vm_compute in Hmin. vm_compute. exact Hmin.
  - etrans; [apply (proj1 (proj2 (tailor_resume_split _)))|reflexivity].
    intros Hocc%contains_spec. vm_compute in Hocc. discriminate.
Defined.

End TailorResume.

(* ===================================================================== *)
(** * compiler.py: the LaTeX driver *)
(* ===================================================================== *)

Section CompileLatex.
Import Compiler.
Variable parent : str -> str.
Variable stem : str -> str.
Variable joinpath : str -> str -> str.
Variable tool : list str -> str -> nat -> gset str -> run_outcome * gset str.

Lemma unlink_aux_spec (work_dir st : str) (exts : list str) (fs : gset str) p :
  p ∈ unlink_aux joinpath work_dir st exts fs
  <-> p ∈ fs /\ p ∉ (fun ext => joinpath work_dir (st ++ ext)) <$> exts.
Proof.
  unfold unlink_aux. revert fs.
  induction exts as [|ext exts IH]; intros fs; simpl.
  - split; [intros H; split; [done | by intros ?%elem_of_nil] | tauto].
  - rewrite IH, not_elem_of_cons.
    destruct (decide (joinpath work_dir (st ++ ext) ∈ fs)) as [Hin|Hin].
    + rewrite elem_of_difference, not_elem_of_singleton. tauto.
    + split; [|tauto]. intros [Hp Hn]. repeat split; [done | | done].
      intros ->. done.
Qed.

(** C9 as stated fails.  The tool is not run at all when the input file is
    missing, and only once when the first run times out.  A PDF that was
    there before is returned although the two runs produce none.  And an
    exception of a run other than the two that are caught leaves the
    function: nothing is returned. *)
Lemma compile_latex_counterexample :
  let parent := fun _ : str => txt "out" in
  let stem := fun _ : str => txt "resume" in
  let joinpath := fun d n : str => d ++ txt "/" ++ n in
  let timeout := fun (_ : list str) (_ : str) (_ : nat) (fs : gset str) =>
                   (TimeoutExpired, fs) in
  let idle := fun (_ : list str) (_ : str) (_ : nat) (fs : gset str) =>
                (CompletedProcess 1, fs) in
  let denied := fun (_ : list str) (_ : str) (_ : nat) (fs : gset str) =>
                  (OtherError (Obj.Exception "PermissionError"), fs) in
  let tex := txt "out/resume.tex" in
  let pdf := txt "out/resume.pdf" in
  length (invoked (compile_latex_to_pdf parent stem joinpath timeout tex
                     {| files := ∅; invoked := [] |}).2) = 0
  /\ length (invoked (compile_latex_to_pdf parent stem joinpath timeout tex
                        {| files := {[ tex ]}; invoked := [] |}).2) = 1
  /\ idle [] [] 0 {[ tex; pdf ]} = (CompletedProcess 1, {[ tex; pdf ]})
  /\ (compile_latex_to_pdf parent stem joinpath idle tex
        {| files := {[ tex; pdf ]}; invoked := [] |}).1 = Obj.Ok pdf
  /\ (compile_latex_to_pdf parent stem joinpath denied tex
        {| files := {[ tex ]}; invoked := [] |}).1
     = Obj.Raise (Obj.Exception "PermissionError").
Proof.
  cbn zeta. split; [|split; [|split; [done|split]]].
  - unfold compile_latex_to_pdf. simpl. by rewrite decide_False by set_solver.
  - unfold compile_latex_to_pdf. simpl. by rewrite decide_True by set_solver.
  - unfold compile_latex_to_pdf. simpl. rewrite decide_True by set_solver.
    by rewrite decide_True by set_solver.
  - unfold compile_latex_to_pdf. simpl. by rewrite decide_True by set_solver.
Qed.

(** C9, amended.  [compile_latex_to_pdf] runs pdflatex at most twice: not
    at all when the input file is missing; once when the first run times
    out, does not find the tool, or raises another exception; twice
    otherwise.  It returns the empty string when the input is missing,
    when a run times out or does not find the tool, and when no PDF exists
    at the expected path after the two runs.  An exception of a run other
    than these two is not caught: it leaves the function.  Otherwise, the
    PDF being there after the two runs (produced by them or not), it
    deletes the .aux, .log and .out files next to it and returns its
    path. *)
Theorem compile_latex_to_pdf_runs (tex_path : str) (w : world) :
  let work_dir := parent tex_path in
  let pdf_path := joinpath work_dir (stem tex_path ++ txt ".pdf") in
  let cmd := [txt "pdflatex"; txt "-interaction=nonstopmode";
              txt "-output-directory"; work_dir; tex_path] in
  let n := length (invoked w) in
  let r := compile_latex_to_pdf parent stem joinpath tool tex_path w in
  if decide (tex_path ∈ files w) then
    match tool cmd work_dir n (files w) with
    | (CompletedProcess _, fs1) =>
        match tool cmd work_dir (S n) fs1 with
        | (CompletedProcess _, fs2) =>
            invoked r.2 = invoked w ++ [cmd; cmd]
            /\ if decide (pdf_path ∈ fs2) then
                 r.1 = Obj.Ok pdf_path
                 /\ forall p, p ∈ files r.2
                      <-> p ∈ fs2
                          /\ p ∉ [joinpath work_dir (stem tex_path ++ txt ".aux");
                                  joinpath work_dir (stem tex_path ++ txt ".log");
                                  joinpath work_dir (stem tex_path ++ txt ".out")]
               else r.1 = Obj.Ok [] /\ files r.2 = fs2
        | (OtherError e, fs2) =>
            r.1 = Obj.Raise e
            /\ invoked r.2 = invoked w ++ [cmd; cmd] /\ files r.2 = fs2
        | (_, fs2) =>
            r.1 = Obj.Ok []
            /\ invoked r.2 = invoked w ++ [cmd; cmd] /\ files r.2 = fs2
        end
    | (OtherError e, fs1) =>
        r.1 = Obj.Raise e /\ invoked r.2 = invoked w ++ [cmd] /\ files r.2 = fs1
    | (_, fs1) =>
        r.1 = Obj.Ok [] /\ invoked r.2 = invoked w ++ [cmd] /\ files r.2 = fs1
    end
  else r = (Obj.Ok [], w).
Proof.
  intros work_dir pdf_path cmd n r. subst r. unfold compile_latex_to_pdf.
  fold work_dir. fold pdf_path. fold cmd.
  destruct (decide (tex_path ∈ files w)) as [Hin|Hin]; [|done].
  cbn [pdflatex_runs]. unfold subprocess_run. cbn [invoked files]. fold n.
  destruct (tool cmd work_dir n (files w)) as [[rc1| | |e1] fs1]; [|done..].
  cbn [invoked files]. rewrite length_app, Nat.add_1_r. fold n.
  destruct (tool cmd work_dir (S n) fs1) as [[rc2| | |e2] fs2];
    cbn [invoked files]; rewrite <- ?app_assoc; [|done..].
  split; [by destruct (decide (pdf_path ∈ fs2))|].
  destruct (decide (pdf_path ∈ fs2)); [|done].
  split; [done|]. intros p. cbn [snd files]. apply unlink_aux_spec.
Qed.

End CompileLatex.

(* ===================================================================== *)
(** * tracker.py: further properties of the local store *)
(* ===================================================================== *)

Section StoreMore.
Import Obj Tracker.

Lemma loaded_url_not_na (f : csv_file) (u : str) :
  PStr u ∈ job_url <$> (_load_csv f).1 -> u ∉ na_values.
Proof.
  destruct f as [rows|]; simpl; [|by intros ?%elem_of_nil].
  unfold read_csv. rewrite <- list_fmap_compose.
  intros (r & H & _)%list_elem_of_fmap. simpl in H. symmetry in H.
  by apply read_cell_PStr in H as [_ ?].
Qed.

Lemma url_survives_save (df : frame) (u : str) :
  PStr u ∈ job_url <$> df -> u ∉ na_values ->
  PStr u ∈ job_url <$> read_csv (to_csv df).
Proof.
  intros (r & Hr & Hrin)%list_elem_of_fmap Hna.
  apply list_elem_of_fmap.
  exists (row_map read_cell (row_map to_csv_cell r)). split.
  - simpl. rewrite <- Hr. simpl. by rewrite read_cell_str.
  - unfold read_csv, to_csv. rewrite <- list_fmap_compose.
    apply list_elem_of_fmap. by exists r.
Qed.

Lemma upsert_keeps_urls now j st rp cl npid (df : frame) (v : pyval) :
  v ∈ job_url <$> df -> v ∈ job_url <$> upsert now j st rp cl npid df.
Proof.
  intros Hin. unfold upsert.
  destruct (py_in (get j "job_url") (job_url <$> df)).
  - destruct (list_find _ df) as [[i r]|] eqn:E; [|done].
    apply list_find_Some in E as (Hi & _ & _).
    apply list_elem_of_fmap in Hin as (r0 & -> & Hr0).
    apply list_elem_of_lookup in Hr0 as [k Hk].
    apply list_elem_of_fmap. destruct (decide (k = i)) as [->|Hne].
    + rewrite Hi in Hk. injection Hk as <-.
      exists (update_row st rp cl npid r). split; [done|].
      apply list_elem_of_lookup. exists i.
      by rewrite list_lookup_alter_eq, Hi.
    + exists r0. split; [done|]. apply list_elem_of_lookup. exists k.
      by rewrite list_lookup_alter_ne.
  - rewrite fmap_app, elem_of_app. by left.
Qed.

Lemma upsert_length now j st rp cl npid (df : frame) :
  length df <= length (upsert now j st rp cl npid df) <= S (length df).
Proof.
  destruct (py_in (get j "job_url") (job_url <$> df)) eqn:E.
  - rewrite upsert_length_found by done. lia.
  - rewrite upsert_absent by done. rewrite length_app. simpl. lia.
Qed.

Lemma is_already_tracked_fst (u : str) (f : csv_file) :
  (is_already_tracked u f).1 = true <-> PStr u ∈ job_url <$> (_load_csv f).1.
Proof.
  unfold is_already_tracked. destruct (_load_csv f) as [df f']. simpl.
  apply py_in_PStr.
Qed.

Lemma load_after_log now j st rp cl npid (f : csv_file) :
  (_load_csv (log_job_to_csv now j st rp cl npid f)).1
  = read_csv (to_csv (upsert now j st rp cl npid (_load_csv f).1)).
Proof. by rewrite log_job_to_csv_eq. Qed.

(** X1. A job logged under a URL that is a non-empty string and no
    missing-value marker is found by [is_already_tracked] afterwards. *)
Theorem tracked_after_log
    (now st rp cl npid u : str) (j : job) (f : csv_file) :
  get j "job_url" = PStr u -> u ∉ na_values ->
  (is_already_tracked u (log_job_to_csv now j st rp cl npid f)).1 = true.
Proof.
  intros Hu Hna. apply is_already_tracked_fst. rewrite load_after_log.
  apply url_survives_save; [|done]. by apply upsert_keeps_url.
Qed.

Lemma tracked_after_log_witness :
  (is_already_tracked (txt "https://jobs.example/1")
     (log_job_to_csv (txt "t0")
        {[ "job_url" := PStr (txt "https://jobs.example/1") ]}
        (txt "Error") [] [] [] None)).1 = true.
Proof.
  apply tracked_after_log.
  - reflexivity.
  - vm_compute. intros H.
    repeat (apply elem_of_cons in H as [H|H]; [discriminate|]).
    by apply elem_of_nil in H.
Defined.

(** X2. [log_job_to_csv] never forgets.  When the cells it writes hold no
    carriage return, a URL tracked before the call is tracked after it,
    whatever job is logged, and the file loses no row and gains at most
    one. *)
Theorem log_job_to_csv_never_forgets
    (now st rp cl npid u : str) (j : job) (f : csv_file) :
  Spec.no_cr (log_job_to_csv now j st rp cl npid f) ->
  (is_already_tracked u f).1 = true ->
  (is_already_tracked u (log_job_to_csv now j st rp cl npid f)).1 = true
  /\ length (_load_csv f).1
     <= length (_load_csv (log_job_to_csv now j st rp cl npid f)).1
     <= S (length (_load_csv f).1).
Proof.
  intros _ Hu%is_already_tracked_fst. split.
  - apply is_already_tracked_fst. rewrite load_after_log.
    apply url_survives_save; [by apply upsert_keeps_urls|].
    by eapply loaded_url_not_na.
  - rewrite load_after_log. unfold read_csv, to_csv. rewrite !length_fmap.
    apply upsert_length.
Qed.

Lemma log_job_to_csv_never_forgets_witness :
  let f := log_job_to_csv (txt "t0")
             {[ "job_url" := PStr (txt "https://jobs.example/1") ]}
             (txt "Applied") [] [] [] None in
  (is_already_tracked (txt "https://jobs.example/1")
     (log_job_to_csv (txt "t1")
        {[ "job_url" := PStr (txt "https://jobs.example/2") ]}
        (txt "Error") [] [] [] f)).1 = true.
Proof.
  intros f.
  apply (log_job_to_csv_never_forgets (txt "t1") (txt "Error") [] [] []
           (txt "https://jobs.example/1")
           {[ "job_url" := PStr (txt "https://jobs.example/2") ]} f).
  - apply (bool_decide_unpack _). by vm_compute.
  - by vm_compute.
Defined.

(** X3. A job without a usable URL (no "job_url" key, [None], NaN, the
    empty string or another missing-value marker) is never recognised:
    every call appends one more row (the cells written holding no
    carriage return). *)
Theorem log_job_to_csv_missing_url_appends
    (now st rp cl npid : str) (j : job) (f : csv_file) :
  Spec.no_cr (log_job_to_csv now j st rp cl npid f) ->
  (forall u, get j "job_url" = PStr u -> u ∈ na_values) ->
  length (_load_csv (log_job_to_csv now j st rp cl npid f)).1
  = S (length (_load_csv f).1).
Proof.
  intros _ Hna. rewrite load_after_log. unfold read_csv, to_csv.
  rewrite !length_fmap, upsert_absent, length_app; [simpl; lia|].
  apply not_true_is_false. intros (u & Hu & Hin)%py_in_url_exists.
  apply loaded_url_not_na in Hin. by apply Hin, Hna.
Qed.

Lemma log_job_to_csv_missing_url_appends_witness :
  let j : job := {[ "title" := PStr (txt "Developer") ]} in
  let f := log_job_to_csv (txt "t0") j (txt "Error") [] [] [] None in
  length (_load_csv (log_job_to_csv (txt "t1") j (txt "Error") [] [] [] f)).1
  = S (length (_load_csv f).1).
Proof.
  intros j f. apply log_job_to_csv_missing_url_appends.
  - apply (bool_decide_unpack _). by vm_compute.
  - intros u Hu. vm_compute in Hu. discriminate.
Defined.

(** X4. Once a job is logged under a proper URL, [filter_new_jobs] lets no
    posting with that URL through. *)
Theorem filter_new_jobs_after_log
    (now st rp cl npid u : str) (j : job) (f : csv_file) (jobs_df : list job) :
  get j "job_url" = PStr u -> u ∉ na_values ->
  Forall (fun j' => get j' "job_url" <> PStr u)
    (filter_new_jobs jobs_df (log_job_to_csv now j st rp cl npid f)).1.
Proof.
  intros Hu Hna. rewrite filter_new_jobs_fst. apply Forall_forall.
  intros j' [Hnot _]%list_elem_of_filter Heq. apply Hnot.
  apply tracked_urls_spec. rewrite Heq. split; [done|].
  rewrite load_after_log. apply url_survives_save; [|done].
  by apply upsert_keeps_url.
Qed.

Lemma filter_new_jobs_after_log_witness :
  let j : job := {[ "job_url" := PStr (txt "https://jobs.example/1") ]} in
  Forall (fun j' => get j' "job_url" <> PStr (txt "https://jobs.example/1"))
    (filter_new_jobs [j; j]
       (log_job_to_csv (txt "t0") j (txt "Error") [] [] [] None)).1.
Proof.
  intros j. apply filter_new_jobs_after_log.
  - reflexivity.
  - vm_compute. intros H.
    repeat (apply elem_of_cons in H as [H|H]; [discriminate|]).
    by apply elem_of_nil in H.
Defined.

End StoreMore.

Section StoreFrame.
Import Obj Tracker.

Lemma filter_all {A} (P : A -> Prop) `{!forall x, Decision (P x)} (l : list A) :
  Forall P l -> filter P l = l.
Proof.
  induction 1 as [|x l Hx _ IH]; [done|].
  rewrite filter_cons_True by done. by rewrite IH.
Qed.

(** X5. [filter_new_jobs] returns an empty batch without opening the
    tracker; with a batch and no tracker file it creates the empty file
    and returns the whole batch; a file that exists is left as it is. *)
Theorem filter_new_jobs_file
    (j : job) (jobs_df : list job) (rows : list (row str)) (f : csv_file) :
  filter_new_jobs [] f = ([], f)
  /\ filter_new_jobs (j :: jobs_df) None = (j :: jobs_df, Some [])
  /\ (filter_new_jobs jobs_df (Some rows)).2 = Some rows.
Proof.
  split; [done|]. split.
  - apply injective_projections; [|done].
    rewrite filter_new_jobs_fst. simpl.
    apply filter_all, Forall_forall.
    intros j' _ H. by apply elem_of_nil in H.
  - by destruct jobs_df.
Qed.

(** X6. An upsert changes at most one of the rows that were there: every
    row but the first one with the job's URL is read back after the call
    as it was read before it. *)
Theorem log_job_to_csv_touches_one_row
    (now st rp cl npid : str) (j : job) (f : csv_file) (k : nat) :
  (forall r, list_find (fun r => job_url r = get j "job_url") (_load_csv f).1
             <> Some (k, r)) ->
  k < length (_load_csv f).1 ->
  (_load_csv (log_job_to_csv now j st rp cl npid f)).1 !! k
  = (_load_csv f).1 !! k.
Proof.
  intros Hnot Hk. rewrite load_after_log. set (df := (_load_csv f).1) in *.
  destruct (lookup_lt_is_Some_2 df k Hk) as [rk Hrk].
  assert (Hup : upsert now j st rp cl npid df !! k = Some rk).
  { destruct (py_in (get j "job_url") (job_url <$> df)) eqn:E.
    - apply py_in_url_exists in E as (u & Hu & Hin).
      destruct (upsert_found now j st rp cl npid df u Hu Hin)
        as (i & r & Hf & ->).
      rewrite list_lookup_insert_ne; [done|]. intros <-.
      rewrite Hu in Hnot. by apply (Hnot r).
    - rewrite upsert_absent by done. by rewrite lookup_app_l. }
  unfold read_csv, to_csv. rewrite !list_lookup_fmap, Hup, Hrk. simpl.
  rewrite row_map_map. f_equal. by apply (loaded_row_saved f k).
Qed.

Lemma log_job_to_csv_touches_one_row_witness :
  let j1 : job := {[ "job_url" := PStr (txt "https://jobs.example/1") ]} in
  let j2 : job := {[ "job_url" := PStr (txt "https://jobs.example/2") ]} in
  let f := log_job_to_csv (txt "t1") j2 (txt "Applied") [] [] []
             (log_job_to_csv (txt "t0") j1 (txt "Applied") [] [] [] None) in
  (_load_csv (log_job_to_csv (txt "t2") j2 (txt "Offer") [] [] [] f)).1 !! 0
  = (_load_csv f).1 !! 0.
Proof.
  intros j1 j2 f. apply log_job_to_csv_touches_one_row.
  - intros r H. vm_compute in H. discriminate.
  - vm_compute. lia.
Defined.

(** X7. What [_load_csv] read is read again unchanged after [_save_csv];
    the text of a cell survives loading and saving exactly when it is
    empty or is none of the missing-value markers. *)
Theorem load_save_round_trip (f : csv_file) (s : str) :
  (_load_csv (_save_csv (_load_csv f).1)).1 = (_load_csv f).1
  /\ (to_csv_cell (read_cell s) = s <-> s = [] \/ s ∉ na_values).
Proof.
  split; [apply load_fst_saved|]. unfold read_cell.
  destruct (decide (s ∈ na_values)) as [Hs|Hs]; simpl.
  - split; [by left | by intros [?|?]].
  - split; [by right | done].
Qed.

End StoreFrame.

(* ===================================================================== *)
(** * scraper.py: further properties of the filter and the deduplicator *)
(* ===================================================================== *)

Section FilterMore.
Import Re Scraper Spec.

(** Every pattern starts with [(\d+)]: no match starts elsewhere. *)
Lemma match_here_needs_digit pat (s : str) :
  pat ∈ patterns ->
  match s with [] => True | c :: _ => Py.isdigit c = false end ->
  match_here pat s = None.
Proof.
  unfold patterns. intros Hpat Hs.
  repeat (apply elem_of_cons in Hpat as [->|Hpat]);
    [| | |by apply elem_of_nil in Hpat];
    unfold match_here; cbn [pat_range pat_plus pat_experience cat foldr];
    rewrite run_Seq; cbn [run]; destruct s as [|c s]; try done;
    cbn [cls_match]; by rewrite Hs.
Qed.

Lemma finditer_no_digit pat (s : str) (skip : nat) :
  pat ∈ patterns -> Forall (fun c => Py.isdigit c = false) s ->
  finditer_from pat s skip = [].
Proof.
  intros Hpat Hs. revert skip. induction Hs as [|c s Hc Hs IH]; intros skip.
  - destruct skip; [|done]. rewrite finditer_from_0.
    by rewrite match_here_needs_digit.
  - destruct skip; [|apply IH]. rewrite finditer_from_0.
    rewrite match_here_needs_digit by done. apply IH.
Qed.

(** X8. A description without a digit asks for no years of experience,
    and the filter then accepts a posting exactly when it holds no senior
    keyword. *)
Theorem no_digit_no_years (cfg : config) (title description : str) :
  Forall (fun c => Py.isdigit c = false) description ->
  _extract_years_required description = None
  /\ _passes_experience_filter cfg title description
     = negb (_is_senior_role cfg title description).
Proof.
  intros Hd.
  assert (H : _extract_years_required description = None).
  { rewrite extract_as_fold. unfold all_found, patterns.
    cbn [mbind list_bind foldr fold_left]. unfold finditer.
    rewrite !finditer_no_digit by (done || unfold patterns; set_solver).
    done. }
  split; [done|]. unfold _passes_experience_filter. rewrite H.
  by destruct (_is_senior_role cfg title description).
Qed.

Lemma no_digit_no_years_witness :
  _extract_years_required (txt "Several years of experience with Java") = None.
Proof.
  apply (no_digit_no_years config_py []).
  repeat constructor.
Defined.

Lemma existsb_subset {A} (p : A -> bool) (l l' : list A) :
  (forall x, x ∈ l -> x ∈ l') -> existsb p l = true -> existsb p l' = true.
Proof.
  intros Hsub. rewrite !existsb_exists. intros (x & Hx & Hp).
  exists x. split; [|done]. by apply list_elem_of_In, Hsub, list_elem_of_In.
Qed.

(** X9. Loosening the configuration never rejects a posting that was
    accepted: with fewer senior keywords, more junior keywords and a
    maximum at least as large, an accepted posting stays accepted. *)
Theorem passes_experience_filter_monotone
    (cfg cfg' : config) (title description : str) :
  (forall kw, kw ∈ SENIOR_KEYWORDS cfg' -> kw ∈ SENIOR_KEYWORDS cfg) ->
  (forall kw, kw ∈ JUNIOR_KEYWORDS cfg -> kw ∈ JUNIOR_KEYWORDS cfg') ->
  (MAX_YEARS_EXPERIENCE cfg <= MAX_YEARS_EXPERIENCE cfg')%N ->
  _passes_experience_filter cfg title description = true ->
  _passes_experience_filter cfg' title description = true.
Proof.
  intros Hs Hj Hmax. unfold _passes_experience_filter.
  destruct (_is_senior_role cfg title description) eqn:Es; [done|].
  destruct (_is_senior_role cfg' title description) eqn:Es'.
  { unfold _is_senior_role in *.
    apply (existsb_subset _ _ _ Hs) in Es'. congruence. }
  destruct (_extract_years_required description) as [y|]; [|done].
  destruct (MAX_YEARS_EXPERIENCE cfg' <? y)%N eqn:E'; [|done].
  apply N.ltb_lt in E'.
  assert (E : (MAX_YEARS_EXPERIENCE cfg <? y)%N = true) by (apply N.ltb_lt; lia).
  rewrite E. destruct (_is_junior_role cfg title description) eqn:Ej; [|done].
  intros _. unfold _is_junior_role in *.
  by rewrite (existsb_subset _ _ _ Hj Ej).
Qed.

Lemma passes_experience_filter_monotone_witness :
  _passes_experience_filter
    {| MAX_YEARS_EXPERIENCE := 8;
       SENIOR_KEYWORDS := [txt "senior"];
       JUNIOR_KEYWORDS := JUNIOR_KEYWORDS config_py |}
    (txt "Developer") (txt "3-5 years with Java") = true.
Proof.
  apply (passes_experience_filter_monotone config_py).
  - intros kw ->%list_elem_of_singleton. by left.
  - done.
  - simpl. lia.
  - by vm_compute.
Defined.

End FilterMore.

Section DeduplicateMore.
Import Obj Scraper.


Lemma drop_from_id (subset : list string) seen (df : list job) :
  NoDup (subset_key subset <$> df) ->
  (forall k, k ∈ subset_key subset <$> df -> k ∉ seen) ->
  drop_duplicates_from subset seen df = df.
Proof.
  revert seen. induction df as [|r df IH]; intros seen Hnd Hfresh;
    cbn [drop_duplicates_from]; [done|].
  rewrite fmap_cons in Hnd, Hfresh. apply NoDup_cons in Hnd as [Hr Hnd].
  rewrite decide_False by (apply Hfresh; by left).
  f_equal. apply IH; [done|]. intros k Hk.
  apply not_elem_of_cons. split.
  - by intros ->.
  - apply Hfresh. by right.
Qed.

Lemma pairwise_keys_NoDup (subset : list string) (R : job -> job -> Prop)
    (l : list job) :
  (forall a b, subset_key subset a = subset_key subset b <-> R a b) ->
  Spec.pairwise_not R l -> NoDup (subset_key subset <$> l).
Proof.
  intros HR Hp. apply NoDup_alt. intros i j k Hi Hj.
  rewrite list_lookup_fmap in Hi, Hj.
  destruct (l !! i) as [a|] eqn:Ha; [|done].
  destruct (l !! j) as [b|] eqn:Hb; [|done].
  simpl in Hi, Hj. destruct (decide (i = j)) as [|Hne]; [done|].
  exfalso. apply (Hp i j a b Ha Hb Hne). apply HR. congruence.
Qed.

Lemma deduplicate_rows_id (l : list job) :
  Spec.pairwise_not Spec.same_url l ->
  Spec.pairwise_not Spec.same_company_title l ->
  deduplicate_rows l = l.
Proof.
  intros H1 H2. unfold deduplicate_rows, keep_first.
  rewrite (drop_from_id ["job_url"] [] l).
  - apply drop_from_id; [|by intros ? _ ?%elem_of_nil].
    by apply (pairwise_keys_NoDup _ _ _ pair_key_eq).
  - by apply (pairwise_keys_NoDup _ _ _ url_key_eq).
  - by intros ? _ ?%elem_of_nil.
Qed.

(** X10. [_deduplicate] returns unless the frame, not empty, lacks one of
    the columns "job_url", "company" and "title": then it raises
    KeyError.  What it returns it returns again unchanged, so
    deduplicating twice is deduplicating once; and a batch with no repeated
    URL and no repeated (company, title) pair comes out unchanged. *)
Theorem deduplicate_idempotent (df : list job) :
  match _deduplicate df with
  | Ok d =>
      has_columns ["job_url"; "company"; "title"] df = true
      /\ _deduplicate d = Ok d
      /\ (Spec.pairwise_not Spec.same_url df ->
          Spec.pairwise_not Spec.same_company_title df -> d = df)
  | Raise e =>
      e = Exception "KeyError" /\ df <> []
      /\ has_columns ["job_url"; "company"; "title"] df = false
  end.
Proof.
  rewrite deduplicate_cases.
  destruct (has_columns ["job_url"; "company"; "title"] df) eqn:Hc.
  - split; [done|]. split; [|apply deduplicate_rows_id].
    rewrite deduplicate_cases.
    assert (Hc' : has_columns ["job_url"; "company"; "title"]
                    (deduplicate_rows df) = true).
    { unfold deduplicate_rows. by rewrite !has_columns_keep_first. }
    rewrite Hc'. f_equal.
    apply deduplicate_rows_id; apply deduplicate_rows_distinct.
  - split; [done|]. split; [|done]. by intros ->.
Qed.

Lemma deduplicate_idempotent_witness :
  let a : job := {[ "job_url" := PStr (txt "u1"); "company" := PStr (txt "Acme");
                    "title" := PStr (txt "Dev") ]} in
  let b : job := {[ "job_url" := PStr (txt "u2"); "company" := PStr (txt "Acme");
                    "title" := PStr (txt "QA") ]} in
  let c : job := {[ "job_url" := PStr (txt "u3"); "title" := PStr (txt "QA") ]} in
  _deduplicate [a; b; a] = Ok [a; b]
  /\ _deduplicate [a; b] = Ok [a; b]
  /\ _deduplicate [c; a] = Raise (Exception "KeyError").
Proof.
  intros a b c.
  pose proof (deduplicate_idempotent [a; b; a]) as H.
  assert (E : _deduplicate [a; b; a] = Ok [a; b]) by (by vm_compute).
  rewrite E in H. destruct H as (_ & H & _).
  split; [exact E|]. split; [exact H|]. by vm_compute.
Defined.

End DeduplicateMore.

(* ===================================================================== *)
(** * generator.py: further properties of the split *)
(* ===================================================================== *)

Section TailorMore.
Import Py Generator Spec.

Lemma occurs_strip (kw s : str) : occurs kw (strip s) -> occurs kw s.
Proof.
  intros (a & b & H). destruct (strip_spec s) as (l & r & Hs & _).
  exists (l ++ a), (b ++ r). rewrite Hs, H. by rewrite <- !app_assoc.
Qed.

(** X11. The resume source [tailor_resume] returns never holds the
    delimiter "===KEYWORD_REPORT===", whatever the service answered. *)
Theorem tailor_resume_source_has_no_delimiter (full_output : str) :
  ~ occurs KEYWORD_REPORT (tailor_resume full_output).1.
Proof.
  unfold tailor_resume.
  destruct (contains KEYWORD_REPORT full_output) eqn:Hc.
  - unfold split_once.
    destruct (find KEYWORD_REPORT full_output) as [i|] eqn:F.
    + apply find_Some in F as [[Heq Hmin] Hlen]. simpl.
      intros (a1 & a2 & Ha)%occurs_strip.
      specialize (Hmin a1 (a2 ++ KEYWORD_REPORT
                              ++ drop (i + length KEYWORD_REPORT) full_output)).
      assert (Hfull : full_output
                = a1 ++ KEYWORD_REPORT ++ a2 ++ KEYWORD_REPORT
                  ++ drop (i + length KEYWORD_REPORT) full_output).
      { rewrite Heq at 1. rewrite Ha. by rewrite <- !app_assoc. }
      specialize (Hmin Hfull). rewrite Ha, !length_app in Hmin.
      change (length KEYWORD_REPORT) with 20 in Hmin. lia.
    + apply find_None in F. by apply contains_spec in Hc.
  - simpl. intros H%occurs_strip%contains_spec. congruence.
Qed.

End TailorMore.

(* ===================================================================== *)
(** * scraper.py: what [scrape_new_jobs] returns *)
(* ===================================================================== *)

Section ScraperRunFacts.
Import Re Obj Scraper ScraperRun.

Lemma extract_description_agree (row : job) :
  _extract_years_required (row_description row)
  = _extract_years_required (fillna_empty (get row "description")).
Proof.
  unfold row_description, get_or, get.
  destruct (row !! "description") as [[s| |]|]; simpl; try done.
Qed.

Lemma cells_kept cfg now (row : job) (k : string) :
  k ∈ keep_cols -> k <> "status" -> k <> "scraped_at" ->
  k <> "junior_match" -> k <> "experience_years" ->
  cells (finish cfg now row) !! k = row !! k.
Proof.
  intros Hk H1 H2 H3 H4. simpl.
  destruct (row !! k) as [v|] eqn:E.
  - apply map_lookup_filter_Some. split; [|done].
    by rewrite !lookup_insert_ne, !lookup_delete_ne.
  - apply map_lookup_filter_None. left.
    by rewrite !lookup_insert_ne, !lookup_delete_ne.
Qed.

Lemma cells_status cfg now (row : job) :
  cells (finish cfg now row) !! "status" = Some (PStr (txt "New"))
  /\ cells (finish cfg now row) !! "scraped_at" = Some (PStr now).
Proof.
  split; apply map_lookup_filter_Some.
  - split; [apply lookup_insert_eq | unfold keep_cols; set_solver].
  - split; [by rewrite lookup_insert_ne, lookup_insert_eq
           | unfold keep_cols; set_solver].
Qed.

Lemma get_cells cfg now (row : job) (k : string) :
  k ∈ keep_cols -> k <> "status" -> k <> "scraped_at" ->
  k <> "junior_match" -> k <> "experience_years" ->
  get (cells (finish cfg now row)) k = get row k.
Proof. intros. unfold get. by rewrite cells_kept. Qed.

(** X12. Every row [scrape_new_jobs] returns comes from a posting of the
    input that passed the experience filter and the location test; it
    carries the status "New" and the time of the scrape; and when its
    [experience_years] exceeds the configured maximum its [junior_match]
    flag is set. *)
Theorem scrape_new_jobs_rows
    (cfg : config) (now : str) (df : list job) (r : scraped) :
  r ∈ scrape_new_jobs cfg now df ->
  (exists row, row ∈ df /\ r = finish cfg now row
               /\ experience_mask cfg row = true
               /\ location_mask row = true)
  /\ cells r !! "status" = Some (PStr (txt "New"))
  /\ cells r !! "scraped_at" = Some (PStr now)
  /\ (junior_match r = true
      \/ match experience_years r with
         | Some y => (y <= MAX_YEARS_EXPERIENCE cfg)%N
         | None => True
         end).
Proof.
  unfold scrape_new_jobs. intros (row & -> & Hrow)%list_elem_of_fmap.
  assert (Hsub : deduplicate_rows
            (filter (fun row => location_mask row = true)
               (filter (fun row => experience_mask cfg row = true) df))
          `sublist_of`
          filter (fun row => location_mask row = true)
            (filter (fun row => experience_mask cfg row = true) df)).
  { apply deduplicate_rows_sublist. }
  apply (fun H => elem_of_sublist _ _ _ H Hsub) in Hrow.
  apply list_elem_of_filter in Hrow as [Hloc Hrow].
  apply list_elem_of_filter in Hrow as [Hexp Hrow].
  split; [by exists row|].
  destruct (cells_status cfg now row) as [Hst Hat].
  split; [done|]. split; [done|].
  unfold experience_mask, _passes_experience_filter in Hexp.
  cbn [junior_match experience_years finish].
  rewrite <- extract_description_agree.
  destruct (_is_senior_role cfg (row_title row) (row_description row)); [done|].
  destruct (_extract_years_required (row_description row)) as [y|]; [|by right].
  destruct (MAX_YEARS_EXPERIENCE cfg <? y)%N eqn:E.
  - left. by destruct (_is_junior_role cfg (row_title row) (row_description row)).
  - right. by apply N.ltb_ge.
Qed.

Lemma scrape_new_jobs_rows_witness :
  let row : job :=
    {[ "title" := PStr (txt "Junior Developer");
       "description" := PStr (txt "8 years of experience");
       "location" := PStr (txt "Toronto, ON");
       "job_url" := PStr (txt "https://jobs.example/1") ]} in
  junior_match (finish config_py (txt "t0") row) = true
  \/ match experience_years (finish config_py (txt "t0") row) with
     | Some y => (y <= MAX_YEARS_EXPERIENCE config_py)%N
     | None => True
     end.
Proof.
  intros row.
  apply (scrape_new_jobs_rows config_py (txt "t0") [row]
           (finish config_py (txt "t0") row)).
  assert (H : scrape_new_jobs config_py (txt "t0") [row]
              = [finish config_py (txt "t0") row]) by (by vm_compute).
  rewrite H. left.
Defined.

(** X13. The rows [scrape_new_jobs] returns are the survivors of the
    input in their order.  No two of them have the same URL, where a
    missing URL written [None] and one written NaN are two URLs; and no two
    of them have the same (company, title) pair, where two missing cells
    are the same. *)
Theorem scrape_new_jobs_distinct (cfg : config) (now : str) (df : list job) :
  (exists kept, kept `sublist_of` df
                /\ scrape_new_jobs cfg now df = finish cfg now <$> kept)
  /\ Spec.pairwise_not
       (fun r1 r2 => get (cells r1) "job_url" = get (cells r2) "job_url")
       (scrape_new_jobs cfg now df)
  /\ Spec.pairwise_not
       (fun r1 r2 =>
          Spec.same_cell (get (cells r1) "company") (get (cells r2) "company")
          /\ Spec.same_cell (get (cells r1) "title") (get (cells r2) "title"))
       (scrape_new_jobs cfg now df).
Proof.
  unfold scrape_new_jobs.
  set (l := filter (fun row => location_mask row = true)
              (filter (fun row => experience_mask cfg row = true) df)).
  destruct (deduplicate_rows_distinct l) as [Hu Hp].
  split; [|split].
  - exists (deduplicate_rows l). split; [|done].
    etrans; [apply deduplicate_rows_sublist|].
    subst l. etrans; apply sublist_filter.
  - intros i j r1 r2 Hi Hj Hne. rewrite list_lookup_fmap in Hi, Hj.
    destruct (deduplicate_rows l !! i) as [a|] eqn:Ha; [|done].
    destruct (deduplicate_rows l !! j) as [b|] eqn:Hb; [|done].
    injection Hi as <-. injection Hj as <-.
    rewrite !get_cells by (done || (unfold keep_cols; set_solver)).
    by apply (Hu i j a b).
  - intros i j r1 r2 Hi Hj Hne. rewrite list_lookup_fmap in Hi, Hj.
    destruct (deduplicate_rows l !! i) as [a|] eqn:Ha; [|done].
    destruct (deduplicate_rows l !! j) as [b|] eqn:Hb; [|done].
    injection Hi as <-. injection Hj as <-.
    rewrite !get_cells by (done || (unfold keep_cols; set_solver)).
    by apply (Hp i j a b).
Qed.

End ScraperRunFacts.

(* ===================================================================== *)
(** * generator.py: the name of the output folder *)
(* ===================================================================== *)

Section OutputDir.
Import Py GeneratorDirs Spec.

Lemma drop_special_keeps (s : str) (c : ascii) :
  c ∈ drop_special s ->
  c ∈ s /\ isword c || isspace c || (ord c =? 45)%N = true.
Proof.
  intros Hc%list_elem_of_In. unfold drop_special in Hc.
  apply filter_In in Hc as [Hin Hk]. split; [by apply list_elem_of_In | done].
Qed.

Lemma elem_of_strip (s : str) (c : ascii) : c ∈ strip s -> c ∈ s.
Proof.
  intros Hc. destruct (strip_spec s) as (l & r & Hs & _).
  rewrite Hs, !elem_of_app. tauto.
Qed.

Lemma elem_of_safe_name (company title : str) (c : ascii) :
  c ∈ safe_name company title ->
  exists x, x ∈ company ++ txt "_" ++ title
            /\ isword x || isspace x || (ord x =? 45)%N = true
            /\ c = if (ord x =? 32)%N then "_"%char else x.
Proof.
  unfold safe_name, spaces_to_underscores.
  intros (i & Hi & _)%elem_of_take.
  apply list_elem_of_lookup_2, list_elem_of_In, in_map_iff in Hi
    as (x & Hx & Hin).
  apply list_elem_of_In, elem_of_strip, drop_special_keeps in Hin as [Hin Hk].
  by exists x.
Qed.

(** X14. The folder [_make_output_dir] creates is named safe_timestamp,
    where safe has at most 60 characters, each of them a word character
    (letter, digit, underscore), a hyphen, or a white-space character other
    than the space: no space, no path separator, no dot, no colon.  Apart
    from the underscores, its characters are characters of the company name
    or of the title. *)
Theorem make_output_dir_safe (company title timestamp : str) :
  let safe := safe_name company title in
  _make_output_dir company title timestamp = safe ++ txt "_" ++ timestamp
  /\ length safe <= 60
  /\ Forall (fun c => isword c || (ord c =? 45)%N
                      || (isspace c && negb (ord c =? 32)%N) = true) safe
  /\ (forall c, c ∈ safe -> c ∉ txt " /\:.,;?<>|&'")
  /\ (forall c, c ∈ safe -> c <> "_"%char -> c ∈ company ++ title).
Proof.
  intros safe. subst safe.
  assert (Hkeep : forall c, c ∈ safe_name company title ->
            isword c || (ord c =? 45)%N
            || (isspace c && negb (ord c =? 32)%N) = true).
  { intros c (x & _ & Hk & ->)%elem_of_safe_name.
    destruct (ord x =? 32)%N eqn:E; [by vm_compute|].
    rewrite E. cbn [negb]. rewrite andb_true_r. revert Hk.
    by destruct (isword x), (isspace x), (ord x =? 45)%N. }
  split; [done|]. split; [|split; [|split]].
  - unfold safe_name. rewrite length_take. lia.
  - by apply Forall_forall.
  - intros c Hc%Hkeep Hbad. unfold txt in Hbad. simpl in Hbad.
    repeat (apply elem_of_cons in Hbad as [->|Hbad];
            [by vm_compute in Hc|]).
    by apply elem_of_nil in Hbad.
  - intros c (x & Hin & _ & ->)%elem_of_safe_name Hne.
    destruct (ord x =? 32)%N; [done|].
    rewrite !elem_of_app in Hin. rewrite elem_of_app.
    destruct Hin as [?|[Hu|?]]; [by left | | by right].
    unfold txt in Hu. simpl in Hu. by apply list_elem_of_singleton in Hu.
Qed.

End OutputDir.

(* ===================================================================== *)
(** * compiler.py: what the two converters return *)
(* ===================================================================== *)

Section CompileAll.
Import Obj Compiler CompilerDocx.
Variable parent : str -> str.
Variable stem : str -> str.
Variable joinpath : str -> str -> str.
Variable tool : list str -> str -> nat -> gset str -> run_outcome * gset str.
Variable which : str -> bool.
Variable docx2pdf : option (str -> str -> gset str -> convert_outcome * gset str).

Lemma find_soffice_Some (w : world) (soffice : str) :
  find_soffice which w = Some soffice ->
  soffice ∈ libreoffice_paths /\ (which soffice = true \/ soffice ∈ files w).
Proof.
  unfold find_soffice.
  destruct (list_find _ libreoffice_paths) as [[i p]|] eqn:E; [|done].
  intros [= <-]. apply list_find_Some in E as (Hi & Hp & _).
  split; [by eapply list_elem_of_lookup_2 | done].
Qed.

Lemma pdflatex_runs_invoked (run_nums : list nat) (cmd : list str) (cwd : str)
    (w : world) :
  exists k, k <= length run_nums
    /\ invoked (pdflatex_runs tool run_nums cmd cwd w).2
       = invoked w ++ replicate k cmd.
Proof.
  revert w. induction run_nums as [|n rest IH]; intros w.
  - exists 0. simpl. by rewrite app_nil_r.
  - cbn [pdflatex_runs]. unfold subprocess_run.
    destruct (tool cmd cwd (length (invoked w)) (files w)) as [out fs].
    set (w' := {| files := fs; invoked := invoked w ++ [cmd] |}).
    destruct out.
    + destruct (IH w') as (k & Hk & ->). exists (S k).
      split; [simpl; lia|]. subst w'. simpl. by rewrite <- app_assoc.
    + exists 1. split; [simpl; lia | done].
    + exists 1. split; [simpl; lia | done].
    + exists 1. split; [simpl; lia | done].
Qed.

(** X15. [convert_docx_to_pdf] returns the empty string or the path of the
    PDF, and then the PDF exists when it returns.  It does nothing when the
    DOCX is missing, and nothing when neither LibreOffice nor docx2pdf is
    there.  It starts at most one process: the first of the four
    LibreOffice paths that [shutil.which] finds or that exists, with the
    arguments --headless --convert-to pdf --outdir. *)
Theorem convert_docx_to_pdf_result (docx_path : str) (w : world) :
  let output_dir := parent docx_path in
  let pdf_path := joinpath output_dir (stem docx_path ++ txt ".pdf") in
  let r := convert_docx_to_pdf parent stem joinpath tool which docx2pdf
             docx_path w in
  (r.1 = [] \/ r.1 = pdf_path /\ pdf_path ∈ files r.2)
  /\ (docx_path ∉ files w -> r = ([], w))
  /\ (find_soffice which w = None -> docx2pdf = None -> r = ([], w))
  /\ (invoked r.2 = invoked w
      \/ exists soffice,
           find_soffice which w = Some soffice
           /\ soffice ∈ libreoffice_paths
           /\ (which soffice = true \/ soffice ∈ files w)
           /\ docx_path ∈ files w
           /\ invoked r.2
              = invoked w ++ [[soffice; txt "--headless"; txt "--convert-to";
                               txt "pdf"; txt "--outdir"; output_dir;
                               docx_path]]).
Proof.
  intros output_dir pdf_path r. subst r. unfold convert_docx_to_pdf.
  fold output_dir. fold pdf_path.
  destruct (decide (docx_path ∈ files w)) as [Hin|Hin].
  2:{ split; [by left|]. split; [done|]. split; [done | by left]. }
  destruct (find_soffice which w) as [soffice|] eqn:Hs.
  - pose proof (find_soffice_Some w soffice Hs) as [Hp Hw].
    unfold subprocess_run.
    destruct (tool _ [] (length (invoked w)) (files w)) as [out fs1].
    set (cmd := [soffice; _; _; _; _; _; _]).
    assert (Hright : forall l : list (list str), l = invoked w ++ [cmd] ->
              l = invoked w
              \/ exists soffice0, Some soffice = Some soffice0
                   /\ soffice0 ∈ libreoffice_paths
                   /\ (which soffice0 = true \/ soffice0 ∈ files w)
                   /\ docx_path ∈ files w
                   /\ l = invoked w ++ [[soffice0; txt "--headless";
                        txt "--convert-to"; txt "pdf"; txt "--outdir";
                        output_dir; docx_path]]).
    { intros l Hl. right. by exists soffice. }
    assert (Hrest : forall w1 : world, invoked w1 = invoked w ++ [cmd] ->
      let r := match docx2pdf with
               | Some convert =>
                   let '(out, fs2) := convert docx_path pdf_path (files w1) in
                   let w2 := {| files := fs2; invoked := invoked w1 |} in
                   match out with
                   | Converted =>
                       if decide (pdf_path ∈ fs2) then (pdf_path, w2)
                       else ([], w2)
                   | ConvertRaised => ([], w2)
                   end
               | None => ([], w1)
               end in
      (r.1 = [] \/ r.1 = pdf_path /\ pdf_path ∈ files r.2)
      /\ invoked r.2 = invoked w ++ [cmd]).
    { intros w1 Hw1. destruct docx2pdf as [convert|]; simpl.
      - destruct (convert docx_path pdf_path (files w1)) as [[|] fs2]; simpl.
        + destruct (decide (pdf_path ∈ fs2)); simpl; [|by split; [left|]].
          split; [by right | done].
        + by split; [left|].
      - by split; [left|]. }
    destruct out as [rc| | |e]; cbn [files].
    + destruct (bool_decide (pdf_path ∈ fs1)) eqn:Hb.
      * apply bool_decide_eq_true in Hb. cbn [fst snd files invoked].
        split; [by right|]. split; [done|]. split; [done|]. by apply Hright.
      * edestruct (Hrest {| files := fs1; invoked := invoked w ++ [cmd] |})
          as [H1 H2]; [done|].
        split; [exact H1|]. split; [done|]. split; [done|]. by apply Hright.
    + edestruct (Hrest {| files := fs1; invoked := invoked w ++ [cmd] |})
        as [H1 H2]; [done|].
      split; [exact H1|]. split; [done|]. split; [done|]. by apply Hright.
    + edestruct (Hrest {| files := fs1; invoked := invoked w ++ [cmd] |})
        as [H1 H2]; [done|].
      split; [exact H1|]. split; [done|]. split; [done|]. by apply Hright.
    + edestruct (Hrest {| files := fs1; invoked := invoked w ++ [cmd] |})
        as [H1 H2]; [done|].
      split; [exact H1|]. split; [done|]. split; [done|]. by apply Hright.
  - destruct docx2pdf as [convert|].
    + destruct (convert docx_path pdf_path (files w)) as [[|] fs2]; simpl.
      * destruct (decide (pdf_path ∈ fs2)); simpl.
        -- split; [by right|]. split; [done|]. split; [done | by left].
        -- split; [by left|]. split; [done|]. split; [done | by left].
      * split; [by left|]. split; [done|]. split; [done | by left].
    + split; [by left|]. split; [done|]. split; [by destruct w | by left].
Qed.

(** X16. When the PDF is not one of the three auxiliary files, what
    [compile_latex_to_pdf] returns is the empty string or the path of a PDF
    that exists when it returns, and then none of the .aux, .log and .out
    files next to it is left. *)
Theorem compile_latex_to_pdf_returns_existing
    (tex_path : str) (w : world) (v : str) :
  let work_dir := parent tex_path in
  let pdf_path := joinpath work_dir (stem tex_path ++ txt ".pdf") in
  let aux := (fun ext => joinpath work_dir (stem tex_path ++ ext)) <$> aux_exts in
  let r := compile_latex_to_pdf parent stem joinpath tool tex_path w in
  pdf_path ∉ aux ->
  r.1 = Ok v ->
  v = []
  \/ v = pdf_path /\ pdf_path ∈ files r.2
     /\ tex_path ∈ files w
     /\ forall p, p ∈ aux -> p ∉ files r.2.
Proof.
  intros work_dir pdf_path aux r Hpdf. subst r. unfold compile_latex_to_pdf.
  fold work_dir. fold pdf_path.
  destruct (decide (tex_path ∈ files w)) as [Hin|Hin];
    [|by intros [= <-]; left].
  destruct (pdflatex_runs tool [1; 2] _ work_dir w) as [[[|]|e] w1];
    [|by intros [= <-]; left|done].
  destruct (decide (pdf_path ∈ files w1)) as [Hp|Hp];
    [|by intros [= <-]; left].
  intros [= <-]. right. cbn [fst snd files].
  split; [done|]. split; [|split; [done|]].
  - by apply (unlink_aux_spec parent stem joinpath tool).
  - intros p Hp' H.
    apply (unlink_aux_spec parent stem joinpath tool) in H as [_ Hn].
    by apply Hn.
Qed.

Lemma compile_latex_invoked_length (tex_path : str) (w : world) :
  exists k, k <= 2
    /\ length (invoked (compile_latex_to_pdf parent stem joinpath tool
                          tex_path w).2)
       = length (invoked w) + k.
Proof.
  unfold compile_latex_to_pdf.
  destruct (decide (tex_path ∈ files w)); [|exists 0; split; [lia | simpl; lia]].
  match goal with
  | |- context [pdflatex_runs tool ?l ?cmd ?wd w] =>
      destruct (pdflatex_runs_invoked l cmd wd w) as (k & Hk & Hinv);
      destruct (pdflatex_runs tool l cmd wd w) as [[[|]|err] w1]
  end; simpl in Hinv, Hk; [destruct (decide _)| |]; exists k;
    (split; [lia|]); cbn [snd invoked];
    by rewrite Hinv, length_app, length_replicate.
Qed.

Lemma convert_docx_invoked_length (docx_path : str) (w : world) :
  exists k, k <= 1
    /\ length (invoked (convert_docx_to_pdf parent stem joinpath tool which
                          docx2pdf docx_path w).2)
       = length (invoked w) + k.
Proof.
  unfold convert_docx_to_pdf, subprocess_run.
  destruct (decide (docx_path ∈ files w)); [|exists 0; split; [lia | simpl; lia]].
  destruct (find_soffice which w) as [soffice|].
  - exists 1. split; [lia|].
    destruct (tool _ [] (length (invoked w)) (files w)) as [[rc| | |err] fs1];
      cbn [files];
      try destruct (bool_decide _);
      try (destruct docx2pdf as [convert|];
           [destruct (convert _ _ _) as [[|] fs2];
            [destruct (decide _)|]|]);
      cbn [snd invoked]; by rewrite length_app.
  - exists 0. split; [lia|].
    destruct docx2pdf as [convert|];
      [destruct (convert _ _ _) as [[|] fs2]; [destruct (decide _)|]|];
      cbn [snd invoked]; lia.
Qed.

Lemma get_or_else_insert (d : gmap string str) (k1 k2 : string) (v src : str) :
  k1 <> k2 -> d !! k2 = Some src ->
  Main.get_or_else (<[k1 := v]> d) k1 k2
  = match v with [] => src | _ :: _ => v end.
Proof.
  intros Hne Hsrc. unfold Main.get_or_else.
  rewrite lookup_insert_eq. rewrite lookup_insert_ne by done.
  rewrite Hsrc. by destruct v.
Qed.

Lemma get_or_else_insert_ne (d : gmap string str) (k k1 k2 : string) (v : str) :
  k <> k1 -> k <> k2 ->
  Main.get_or_else (<[k := v]> d) k1 k2 = Main.get_or_else d k1 k2.
Proof.
  intros H1 H2. unfold Main.get_or_else. by rewrite !lookup_insert_ne by done.
Qed.

Lemma compile_cover_spec (paths paths1 : gmap string str) (wa : world) :
  paths1 !! "cover_letter_docx" = paths !! "cover_letter_docx" ->
  let r := compile_cover parent stem joinpath tool which docx2pdf paths1 wa in
  (forall k, k <> "cover_letter_pdf" -> r.1 !! k = paths1 !! k)
  /\ (exists k, k <= 1 /\ length (invoked r.2) = length (invoked wa) + k)
  /\ Main.get_or_else r.1 "resume_pdf" "resume_tex"
     = Main.get_or_else paths1 "resume_pdf" "resume_tex"
  /\ match paths !! "cover_letter_docx" with
     | Some ((_ :: _) as docx) =>
         let pdf := (convert_docx_to_pdf parent stem joinpath tool which
                       docx2pdf docx wa).1 in
         Main.get_or_else r.1 "cover_letter_pdf" "cover_letter_docx"
         = match pdf with [] => docx | _ :: _ => pdf end
         /\ Main.get_or_else r.1 "cover_letter_pdf" "cover_letter_docx" <> []
     | _ => r.1 !! "cover_letter_pdf" = paths1 !! "cover_letter_pdf"
     end.
Proof.
  intros Heq. unfold compile_cover. rewrite Heq.
  destruct (paths !! "cover_letter_docx") as [[|d docx]|] eqn:Hd; cbn zeta;
    try (split; [done|]; split; [exists 0; split; [lia | simpl; lia]|];
         by split).
  pose proof (convert_docx_invoked_length (d :: docx) wa) as Hlen.
  destruct (convert_docx_to_pdf _ _ _ _ _ _ (d :: docx) wa) as [pdf wb].
  cbn [fst snd] in *. split; [|split; [done|split]].
  - intros k Hk. by rewrite lookup_insert_ne.
  - by apply get_or_else_insert_ne.
  - rewrite (get_or_else_insert paths1 _ _ pdf (d :: docx)) by done.
    by destruct pdf.
Qed.

(** X17. [compile_all] starts at most three processes, and it raises
    exactly when [compile_latex_to_pdf] does.  The dict it returns differs
    from the one it was given in two keys only, "resume_pdf" and
    "cover_letter_pdf".  For a non-empty "resume_tex", the path main.py
    then hands to the tracker
    ([paths.get("resume_pdf") or paths.get("resume_tex", "")]) is the PDF
    when [compile_latex_to_pdf] returned one and the LaTeX source
    otherwise, so it is never empty; without a "resume_tex" the key
    "resume_pdf" is left as it was.  Likewise for the cover letter, which is
    converted in the state the resume step left. *)
Theorem compile_all_paths (paths : gmap string str) (w : world) :
  let r := compile_all parent stem joinpath tool which docx2pdf paths w in
  let latex := match paths !! "resume_tex" with
               | Some ((_ :: _) as tex) =>
                   Some (compile_latex_to_pdf parent stem joinpath tool tex w)
               | _ => None
               end in
  let w1 := match latex with Some (_, w') => w' | None => w end in
  (exists k, k <= 3 /\ length (invoked r.2) = length (invoked w) + k)
  /\ (forall e, r.1 = Raise e <-> exists w', latex = Some (Raise e, w'))
  /\ forall paths', r.1 = Ok paths' ->
       (forall k, k <> "resume_pdf" -> k <> "cover_letter_pdf" ->
                  paths' !! k = paths !! k)
       /\ match paths !! "resume_tex" with
          | Some ((_ :: _) as tex) =>
              exists pdf,
                (compile_latex_to_pdf parent stem joinpath tool tex w).1 = Ok pdf
                /\ Main.get_or_else paths' "resume_pdf" "resume_tex"
                   = match pdf with [] => tex | _ :: _ => pdf end
                /\ Main.get_or_else paths' "resume_pdf" "resume_tex" <> []
          | _ => paths' !! "resume_pdf" = paths !! "resume_pdf"
          end
       /\ match paths !! "cover_letter_docx" with
          | Some ((_ :: _) as docx) =>
              let pdf := (convert_docx_to_pdf parent stem joinpath tool which
                            docx2pdf docx w1).1 in
              Main.get_or_else paths' "cover_letter_pdf" "cover_letter_docx"
              = match pdf with [] => docx | _ :: _ => pdf end
              /\ Main.get_or_else paths' "cover_letter_pdf"
                   "cover_letter_docx" <> []
          | _ => paths' !! "cover_letter_pdf" = paths !! "cover_letter_pdf"
          end.
Proof.
  intros r latex w1. subst r latex w1. unfold compile_all.
  assert (Hplain :
    let r := compile_cover parent stem joinpath tool which docx2pdf paths w in
    (exists k, k <= 3 /\ length (invoked r.2) = length (invoked w) + k)
    /\ (forall k, k <> "resume_pdf" -> k <> "cover_letter_pdf" ->
                  r.1 !! k = paths !! k)
    /\ r.1 !! "resume_pdf" = paths !! "resume_pdf"
    /\ match paths !! "cover_letter_docx" with
       | Some ((_ :: _) as docx) =>
           let pdf := (convert_docx_to_pdf parent stem joinpath tool which
                         docx2pdf docx w).1 in
           Main.get_or_else r.1 "cover_letter_pdf" "cover_letter_docx"
           = match pdf with [] => docx | _ :: _ => pdf end
           /\ Main.get_or_else r.1 "cover_letter_pdf" "cover_letter_docx" <> []
       | _ => r.1 !! "cover_letter_pdf" = paths !! "cover_letter_pdf"
       end).
  { destruct (compile_cover_spec paths paths w eq_refl)
      as (H1 & (k & Hk & H2) & H3 & H4). cbn zeta in *.
    split; [exists k; split; [lia | done]|].
    split; [by intros k' _ ?; apply H1|]. split; [by apply H1 | done]. }
  destruct (paths !! "resume_tex") as [[|c tex]|] eqn:Htex.
  - destruct (compile_cover _ _ _ _ _ _ paths w) as [p' w'].
    cbn [fst snd] in *. destruct Hplain as (Hk & H1 & H2 & H3).
    split; [done|]. split; [by split; [|intros [? ?]]|].
    by intros ? [= <-].
  - pose proof (compile_latex_invoked_length (c :: tex) w) as (k1 & Hk1 & Hl1).
    destruct (compile_latex_to_pdf _ _ _ _ (c :: tex) w) as [[pdf|e] wa].
    + destruct (compile_cover_spec paths (<["resume_pdf" := pdf]> paths) wa)
        as (H1 & (k & Hk & H2) & H3 & H4); [by rewrite lookup_insert_ne|].
      destruct (compile_cover _ _ _ _ _ _ (<["resume_pdf" := pdf]> paths) wa)
        as [p' w'].
      cbn [fst snd] in *. split; [|split].
      * exists (k1 + k). split; [lia|]. rewrite H2, Hl1. lia.
      * by split; [|intros [? ?]].
      * intros ? [= <-]. split; [|split].
        -- intros k' ? ?. rewrite H1 by done. by rewrite lookup_insert_ne.
        -- exists pdf. split; [done|]. rewrite H3.
           rewrite (get_or_else_insert paths _ _ pdf (c :: tex)) by done.
           by destruct pdf.
        -- destruct (paths !! "cover_letter_docx") as [[|d docx]|]; [|done|].
           ++ rewrite H4. by rewrite lookup_insert_ne.
           ++ rewrite H4. by rewrite lookup_insert_ne.
    + cbn [fst snd] in *. split; [|split].
      * exists k1. split; [lia | done].
      * intros e'. split; [intros [= <-]; by exists wa|].
        by intros (w' & [= <- _]).
      * done.
  - destruct (compile_cover _ _ _ _ _ _ paths w) as [p' w'].
    cbn [fst snd] in *. destruct Hplain as (Hk & H1 & H2 & H3).
    split; [done|]. split; [by split; [|intros [? ?]]|].
    by intros ? [= <-].
Qed.

End CompileAll.

Section CompileAllExamples.
Import Compiler CompilerDocx.

Lemma compile_latex_to_pdf_returns_existing_witness :
  let parent := fun _ : str => txt "out" in
  let stem := fun _ : str => txt "resume" in
  let joinpath := fun d n : str => d ++ txt "/" ++ n in
  let tool := fun (_ : list str) (_ : str) (_ : nat) (fs : gset str) =>
                (CompletedProcess 0,
                 fs ∪ {[ txt "out/resume.pdf"; txt "out/resume.log" ]}) in
  let tex := txt "out/resume.tex" in
  let r := compile_latex_to_pdf parent stem joinpath tool tex
             {| files := {[ tex ]}; invoked := [] |} in
  r.1 = Obj.Ok (txt "out/resume.pdf")
  /\ txt "out/resume.pdf" ∈ files r.2
  /\ txt "out/resume.log" ∉ files r.2.
Proof.
  intros parent0 stem0 joinpath0 tool0 tex r.
  assert (Hr : r.1 = Obj.Ok (txt "out/resume.pdf")).
  { subst r. unfold compile_latex_to_pdf. simpl.
    rewrite decide_True by set_solver.
    by rewrite decide_True by set_solver. }
  destruct (compile_latex_to_pdf_returns_existing parent0 stem0 joinpath0
              tool0 tex {| files := {[ tex ]}; invoked := [] |}
              (txt "out/resume.pdf"))
    as [H|(H1 & H2 & _ & H3)].
  - vm_compute. intros H.
    repeat (apply elem_of_cons in H as [H|H]; [discriminate|]).
    by apply elem_of_nil in H.
  - exact Hr.
  - discriminate.
  - split; [exact Hr|]. split; [exact H2|]. apply H3.
    vm_compute. do 1 right. left.
Defined.

End CompileAllExamples.

(* ===================================================================== *)
(** * main.py: the pipeline *)
(* ===================================================================== *)

Section PipelineFacts.
Import Obj Tracker Compiler CompilerDocx Main.
Variable parent : str -> str.
Variable stem : str -> str.
Variable joinpath : str -> str -> str.
Variable tool : list str -> str -> nat -> gset str -> run_outcome * gset str.
Variable which : str -> bool.
Variable docx2pdf : option (str -> str -> gset str -> convert_outcome * gset str).
Variable sv : services.
Variable clock : nat -> str.
Variable generate_application_docs :
  job -> world -> result (gmap string str) * world.

Lemma track_job_ok now j st rp cl (f : csv_file) :
  exists id, create_notion_page sv j st rp cl = Ok id
             /\ track_job sv now j st rp cl f
                = Ok (id, log_job_to_csv now j st rp cl (or_empty id) f).
Proof.
  unfold track_job. rewrite create_notion_page_cases. simpl. by eexists.
Qed.

Lemma log_keeps_tracked now j st rp cl npid (f : csv_file) (u : str) :
  PStr u ∈ job_url <$> (_load_csv f).1 ->
  PStr u ∈ job_url <$> (_load_csv (log_job_to_csv now j st rp cl npid f)).1.
Proof.
  intros Hu. rewrite load_after_log.
  apply url_survives_save; [by apply upsert_keeps_urls|].
  by eapply loaded_url_not_na.
Qed.

Lemma log_tracks now j st rp cl npid (f : csv_file) (u : str) :
  get j "job_url" = PStr u -> u ∉ na_values ->
  PStr u ∈ job_url <$> (_load_csv (log_job_to_csv now j st rp cl npid f)).1.
Proof.
  intros Hu Hna. rewrite load_after_log.
  apply url_survives_save; [|done]. by apply upsert_keeps_url.
Qed.

Lemma log_length now j st rp cl npid (f : csv_file) :
  length (_load_csv f).1
  <= length (_load_csv (log_job_to_csv now j st rp cl npid f)).1
  <= S (length (_load_csv f).1).
Proof.
  rewrite load_after_log. unfold read_csv, to_csv. rewrite !length_fmap.
  apply upsert_length.
Qed.

Lemma load_idem (f : csv_file) : (_load_csv (_load_csv f).2).1 = (_load_csv f).1.
Proof. by destruct f. Qed.

Lemma filter_new_jobs_snd (jobs_df : list job) (f : csv_file) :
  (filter_new_jobs jobs_df f).2
  = match jobs_df with [] => f | _ :: _ => (_load_csv f).2 end.
Proof.
  destruct jobs_df; [done|]. unfold filter_new_jobs.
  by destruct (_load_csv f).
Qed.

Lemma filter_new_jobs_load (jobs_df : list job) (f : csv_file) :
  (_load_csv (filter_new_jobs jobs_df f).2).1 = (_load_csv f).1.
Proof.
  rewrite filter_new_jobs_snd. destruct jobs_df; [done | apply load_idem].
Qed.

Lemma or_empty_default (id : option str) : or_empty id = default [] id.
Proof. by destruct id as [[|c s]|]. Qed.

(** X18. One iteration of the loop of [run_pipeline] never raises and logs
    the job exactly once, with the page id [create_notion_page] returned,
    or the empty string when it returned [None].  The job is logged under
    the status "Ready to Apply", with the paths [compile_all] left, when
    the documents were generated and [compile_all] returned; it is logged
    under the status "Error", with empty paths, when the generation raised
    and also when [compile_all] raised, although the documents are then
    there. *)
Theorem process_job_logs_once (now : str) (j : job) (w : world) (f : csv_file) :
  exists w' st rp cl id,
    process_job parent stem joinpath tool which docx2pdf sv
      generate_application_docs now j (w, f)
    = (Ok tt, (w', log_job_to_csv now j st rp cl (default [] id) f))
    /\ create_notion_page sv j st rp cl = Ok id
    /\ match generate_application_docs j w with
       | (Ok paths, w1) =>
           match compile_all parent stem joinpath tool which docx2pdf
                   paths w1 with
           | (Ok paths', w2) =>
               st = txt "Ready to Apply" /\ w' = w2
               /\ rp = get_or_else paths' "resume_pdf" "resume_tex"
               /\ cl = get_or_else paths' "cover_letter_pdf" "cover_letter_docx"
           | (Raise _, w2) =>
               st = txt "Error" /\ w' = w2 /\ rp = [] /\ cl = []
           end
       | (Raise _, w1) => st = txt "Error" /\ w' = w1 /\ rp = [] /\ cl = []
       end.
Proof.
  unfold process_job, attempt.
  destruct (generate_application_docs j w) as [[paths|e] w1].
  - destruct (compile_all _ _ _ _ _ _ paths w1) as [[paths'|e] w2].
    + destruct (track_job_ok now j (txt "Ready to Apply")
                  (get_or_else paths' "resume_pdf" "resume_tex")
                  (get_or_else paths' "cover_letter_pdf" "cover_letter_docx")
                  f) as (id & Hid & ->).
      rewrite or_empty_default. by eexists w2, _, _, _, id.
    + destruct (track_job_ok now j (txt "Error") [] [] f) as (id & Hid & ->).
      rewrite or_empty_default. by eexists w2, _, _, _, id.
  - destruct (track_job_ok now j (txt "Error") [] [] f) as (id & Hid & ->).
    rewrite or_empty_default. by eexists w1, _, _, _, id.
Qed.

Lemma process_job_file (now : str) (j : job) (w : world) (f : csv_file) :
  exists w' st rp cl npid,
    process_job parent stem joinpath tool which docx2pdf sv
      generate_application_docs now j (w, f)
    = (Ok tt, (w', log_job_to_csv now j st rp cl npid f)).
Proof.
  unfold process_job, attempt.
  destruct (generate_application_docs j w) as [[paths|e] w1].
  - destruct (compile_all _ _ _ _ _ _ paths w1) as [[paths'|e] w2].
    + destruct (track_job_ok now j (txt "Ready to Apply")
                  (get_or_else paths' "resume_pdf" "resume_tex")
                  (get_or_else paths' "cover_letter_pdf" "cover_letter_docx")
                  f) as (id & _ & ->).
      by eexists w2, _, _, _, _.
    + destruct (track_job_ok now j (txt "Error") [] [] f) as (id & _ & ->).
      by eexists w2, _, _, _, _.
  - destruct (track_job_ok now j (txt "Error") [] [] f) as (id & _ & ->).
    by eexists w1, _, _, _, _.
Qed.

Lemma process_all_file (n : nat) (jobs : list job) (w : world) (f : csv_file) :
  exists w' f',
    process_all parent stem joinpath tool which docx2pdf sv clock
      generate_application_docs n jobs (w, f) = (Ok tt, (w', f'))
    /\ (forall u, PStr u ∈ job_url <$> (_load_csv f).1 ->
                  PStr u ∈ job_url <$> (_load_csv f').1)
    /\ (forall j u, j ∈ jobs -> get j "job_url" = PStr u -> u ∉ na_values ->
                    PStr u ∈ job_url <$> (_load_csv f').1)
    /\ length (_load_csv f).1 <= length (_load_csv f').1
       <= length (_load_csv f).1 + length jobs.
Proof.
  revert n w f. induction jobs as [|j jobs IH]; intros n w f.
  - exists w, f. split; [done|]. split; [done|]. split; [|simpl; lia].
    by intros j u ?%elem_of_nil.
  - cbn [process_all].
    destruct (process_job_file (clock n) j w f)
      as (w1 & st & rp & cl & npid & ->).
    set (f1 := log_job_to_csv (clock n) j st rp cl npid f).
    destruct (IH (S n) w1 f1) as (w' & f' & -> & Hkeep & Hnew & Hlen).
    exists w', f'. split; [done|]. split; [|split].
    + intros u Hu. by apply Hkeep, log_keeps_tracked.
    + intros j' u [->|Hin]%elem_of_cons Hu Hna.
      * by apply Hkeep, log_tracks.
      * by eapply Hnew.
    + pose proof (log_length (clock n) j st rp cl npid f). fold f1 in H.
      simpl. lia.
Qed.

Lemma read_names_spec (names : list string) :
  match read_names names with
  | Ok _ => Forall (fun n => n ∈ run_pipeline_locals ++ main_globals
                              ++ py_builtins) names
  | Raise e =>
      e = Exception "NameError"
      /\ exists n, n ∈ names
           /\ n ∉ run_pipeline_locals ++ main_globals ++ py_builtins
  end.
Proof.
  induction names as [|n names IH]; cbn [read_names]; [constructor|].
  destruct (bool_decide _) eqn:E.
  - apply bool_decide_eq_true in E. destruct (read_names names).
    + by constructor.
    + destruct IH as (-> & m & Hm & Hb). split; [done|].
      exists m. split; [by right | done].
  - apply bool_decide_eq_false in E. split; [done|].
    exists n. split; [by left | done].
Qed.

(** X19. [run_pipeline] returns normally only when nothing is new: when
    the batch is empty or [filter_new_jobs] leaves nothing, it returns
    without touching the files.  Otherwise it processes every new job,
    none of which makes it raise, and then the summary raises NameError:
    it reads [successful], which is neither a local variable of the
    function, nor a global of main.py, nor a builtin. *)
Theorem run_pipeline_outcome (jobs_df : list job) (w : world) (f : csv_file) :
  let new := (filter_new_jobs jobs_df f).1 in
  let r := run_pipeline parent stem joinpath tool which docx2pdf sv clock
             generate_application_docs jobs_df (w, f) in
  match new with
  | [] => r = (Ok tt, (w, (filter_new_jobs jobs_df f).2))
  | _ :: _ =>
      r.1 = Raise (Exception "NameError")
      /\ (process_all parent stem joinpath tool which docx2pdf sv clock
            generate_application_docs 0 new
            (w, (filter_new_jobs jobs_df f).2)) = (Ok tt, r.2)
      /\ "successful" ∈ summary_reads
      /\ ("successful" ∉ run_pipeline_locals ++ main_globals ++ py_builtins)
      /\ forall names,
           read_names names = Ok tt
           <-> Forall (fun n => n ∈ run_pipeline_locals ++ main_globals
                                ++ py_builtins) names
  end.
Proof.
  intros new r. subst new r. unfold run_pipeline.
  destruct jobs_df as [|j0 jobs]; [done|].
  destruct (filter_new_jobs (j0 :: jobs) f) as [new f1] eqn:E.
  cbn [fst snd]. destruct new as [|j new]; [done|].
  destruct (process_all_file 0 (j :: new) w f1)
    as (w' & f' & -> & _ & _ & Hlen).
  cbn [fst snd].
  assert (Hno : "successful" ∉ run_pipeline_locals ++ main_globals
                               ++ py_builtins).
  { apply (bool_decide_unpack _). by vm_compute. }
  assert (Hin : "successful" ∈ summary_reads).
  { apply (bool_decide_unpack _). by vm_compute. }
  split; [|split; [done|split; [done|split; [done|]]]].
  - pose proof (read_names_spec summary_reads) as H.
    destruct (read_names summary_reads) as [[]|e].
    + rewrite Forall_forall in H. by apply H in Hin.
    + by destruct H as [-> _].
  - intros names. pose proof (read_names_spec names) as H.
    destruct (read_names names) as [[]|e].
    + by split.
    + destruct H as (_ & n & Hn & Hb). split; [done|].
      rewrite Forall_forall. intros Hall. by apply Hall in Hn.
Qed.

Lemma run_pipeline_file (jobs_df : list job) (w : world) (f : csv_file) :
  let r := run_pipeline parent stem joinpath tool which docx2pdf sv clock
             generate_application_docs jobs_df (w, f) in
  (forall u, PStr u ∈ job_url <$> (_load_csv f).1 ->
             PStr u ∈ job_url <$> (_load_csv r.2.2).1)
  /\ (forall j u, j ∈ (filter_new_jobs jobs_df f).1 ->
                  get j "job_url" = PStr u -> u ∉ na_values ->
                  PStr u ∈ job_url <$> (_load_csv r.2.2).1).
Proof.
  intros r. subst r. unfold run_pipeline.
  destruct jobs_df as [|j0 jobs]; [by split; [|intros j u ?%elem_of_nil]|].
  pose proof (filter_new_jobs_load (j0 :: jobs) f) as Hf1.
  destruct (filter_new_jobs (j0 :: jobs) f) as [new f1] eqn:E.
  cbn [fst snd] in *. destruct new as [|j new].
  - cbn [fst snd]. rewrite Hf1. by split; [|intros j u ?%elem_of_nil].
  - destruct (process_all_file 0 (j :: new) w f1)
      as (w' & f' & -> & Hkeep & Hnew & _).
    cbn [fst snd]. rewrite Hf1 in Hkeep. by split.
Qed.

(** X20. After [run_pipeline], every posting of the batch that has a
    proper URL (a string that is no missing-value marker) is tracked,
    whether its documents were generated or not; a second
    [filter_new_jobs] over the same batch does not return it. *)
Theorem run_pipeline_tracks_batch
    (jobs_df : list job) (w : world) (f : csv_file) (j : job) (u : str) :
  j ∈ jobs_df -> get j "job_url" = PStr u -> u ∉ na_values ->
  let r := run_pipeline parent stem joinpath tool which docx2pdf sv clock
             generate_application_docs jobs_df (w, f) in
  (is_already_tracked u r.2.2).1 = true
  /\ j ∉ (filter_new_jobs jobs_df r.2.2).1.
Proof.
  intros Hj Hu Hna r.
  assert (Ht : PStr u ∈ job_url <$> (_load_csv r.2.2).1).
  { destruct (run_pipeline_file jobs_df w f) as [Hkeep Hnew]. fold r in Hkeep, Hnew.
    destruct (decide (get j "job_url" ∈ tracked_urls (_load_csv f).1))
      as [Hin|Hin].
    - apply Hkeep. rewrite Hu in Hin. by apply tracked_urls_spec in Hin as [_ ?].
    - apply (Hnew j u); [|done..]. rewrite filter_new_jobs_fst.
      by apply list_elem_of_filter. }
  split; [by apply is_already_tracked_fst|].
  rewrite filter_new_jobs_fst. intros [Hnot _]%list_elem_of_filter.
  apply Hnot. rewrite Hu. by apply tracked_urls_spec.
Qed.

End PipelineFacts.

Section PipelineExamples.
Import Obj Tracker Compiler CompilerDocx Main.

Lemma run_pipeline_tracks_batch_witness :
  let parent := fun _ : str => txt "out" in
  let stem := fun _ : str => txt "resume" in
  let joinpath := fun d n : str => d ++ txt "/" ++ n in
  let tool := fun (_ : list str) (_ : str) (_ : nat) (fs : gset str) =>
                (FileNotFoundError, fs) in
  let which := fun _ : str => false in
  let sv := {| Client := Raise (Exception "APIResponseError");
               to_datetime := fun s => Ok s;
               pages_create := fun _ => Raise (Exception "APIResponseError") |} in
  let clock := fun _ : nat => txt "2026-01-05T09:00:00" in
  let generate := fun (_ : job) (w : world) =>
                    (Raise (Exception "APIError") : result (gmap string str), w) in
  let j : job := {[ "job_url" := PStr (txt "https://jobs.example/1") ]} in
  let r := run_pipeline parent stem joinpath tool which None sv clock generate
             [j] ({| files := ∅; invoked := [] |}, None) in
  (is_already_tracked (txt "https://jobs.example/1") r.2.2).1 = true
  /\ j ∉ (filter_new_jobs [j] r.2.2).1.
Proof.
  intros parent0 stem0 joinpath0 tool0 which0 sv0 clock0 generate0 j r.
  apply (run_pipeline_tracks_batch parent0 stem0 joinpath0 tool0 which0 None
           sv0 clock0 generate0 [j] {| files := ∅; invoked := [] |} None j
           (txt "https://jobs.example/1")).
  - left.
  - reflexivity.
  - vm_compute. intros H.
    repeat (apply elem_of_cons in H as [H|H]; [discriminate|]).
    by apply elem_of_nil in H.
Defined.

End PipelineExamples.

(* ===================================================================== *)
(** * scraper.py: the location test *)
(* ===================================================================== *)

Section LocationMask.
Import Py Re Obj Scraper ScraperRun Spec.

Lemma lower_nil_inv (p : str) : lower p = [] -> p = [].
Proof. by destruct p. Qed.

Lemma run_word {R} (w s : str) (caps : list str)
    (cont : str -> list str -> option R) (res : R) :
  run (word w) s caps cont = Some res
  <-> exists p b, s = p ++ b /\ lower p = lower w /\ cont b caps = Some res.
Proof.
  revert s. induction w as [|c w IH]; intros s.
  - simpl. split.
    + intros H. by exists [], s.
    + intros (p & b & -> & ->%lower_nil_inv & H). done.
  - cbn [word run]. destruct s as [|x s].
    + split; [done|]. intros (p & b & Hs & Hp & _).
      symmetry in Hs. apply app_eq_nil in Hs as [-> _]. discriminate.
    + cbn [cls_match]. destruct (Ascii.eqb _ _) eqn:E.
      * apply Ascii.eqb_eq in E. rewrite IH. split.
        -- intros (p & b & -> & Hp & H). exists (x :: p), b.
           split; [done|]. split; [|done]. simpl. by rewrite E, Hp.
        -- intros (p & b & Hs & Hp & H). destruct p as [|y p]; [discriminate|].
           injection Hs as <- ->. injection Hp as _ Hp. by exists p, b.
      * apply Ascii.eqb_neq in E. split; [done|].
        intros (p & b & Hs & Hp & _). destruct p as [|y p]; [discriminate|].
        injection Hs as <- ->. by injection Hp as Hx _.
Qed.

Lemma match_here_word (w s : str) :
  is_Some (match_here (word w) s)
  <-> exists p b, s = p ++ b /\ lower p = lower w.
Proof.
  unfold match_here, is_Some. split.
  - intros [res (p & b & Hs & Hp & _)%run_word]. by exists p, b.
  - intros (p & b & Hs & Hp). eexists. apply run_word.
    by exists p, b.
Qed.

Lemma match_here_alt (r1 r2 : re) (s : str) :
  is_Some (match_here (Alt r1 r2) s)
  <-> is_Some (match_here r1 s) \/ is_Some (match_here r2 s).
Proof.
  unfold match_here. cbn [run].
  destruct (run r1 s [] _) as [res|]; rewrite <- ?not_eq_None_Some.
  - split; [by left | done].
  - split; [by right | by intros [?|?]].
Qed.

Lemma search_spec (r : re) (s : str) :
  search r s = true <-> exists a b, s = a ++ b /\ is_Some (match_here r b).
Proof.
  induction s as [|c s IH]; cbn [search].
  - destruct (match_here r []) as [res|] eqn:E.
    + split; [|done]. intros _. exists [], []. by rewrite E.
    + split; [done|]. intros (a & b & Hs & Hb).
      symmetry in Hs. apply app_eq_nil in Hs as [_ ->].
      rewrite E in Hb. by destruct Hb.
  - destruct (match_here r (c :: s)) as [res|] eqn:E.
    + split; [|done]. intros _. exists [], (c :: s). by rewrite E.
    + rewrite IH. split.
      * intros (a & b & -> & Hb). by exists (c :: a), b.
      * intros (a & b & Hs & Hb). destruct a as [|x a].
        -- simpl in Hs. subst b. rewrite E in Hb. by destruct Hb.
        -- injection Hs as <- ->. by exists a, b.
Qed.

Lemma search_word (w s : str) : search (word w) s = true <-> ci_occurs w s.
Proof.
  rewrite search_spec. unfold ci_occurs. split.
  - intros (a & b & -> & (p & b' & -> & Hp)%match_here_word). by exists a, p, b'.
  - intros (a & p & b & -> & Hp). exists a, (p ++ b). split; [done|].
    apply match_here_word. by exists p, b.
Qed.

Lemma search_alt (r1 r2 : re) (s : str) :
  search (Alt r1 r2) s = true <-> search r1 s = true \/ search r2 s = true.
Proof.
  rewrite !search_spec. split.
  - intros (a & b & Hs & [H|H]%match_here_alt); [left | right]; by exists a, b.
  - intros [(a & b & Hs & H)|(a & b & Hs & H)]; exists a, b;
      (split; [done|]); apply match_here_alt; [by left | by right].
Qed.

(** X21. A posting passes the location test exactly when its location,
    with a missing value read as the empty string, holds one of the eleven
    Canadian names or "remote" as a piece of text, in any letter case (a
    part of a longer word counts).  A posting without a location never
    passes. *)
Theorem location_mask_spec (row : job) :
  (location_mask row = true
   <-> exists kw,
         kw ∈ [txt "canada"; txt "ontario"; txt "bc"; txt "alberta";
               txt "quebec"; txt "british columbia"; txt "toronto";
               txt "vancouver"; txt "montreal"; txt "calgary"; txt "ottawa";
               txt "remote"]
         /\ ci_occurs kw (fillna_empty (get row "location")))
  /\ (fillna_empty (get row "location") = [] -> location_mask row = false).
Proof.
  unfold location_mask. split.
  - set (location := fillna_empty (get row "location")).
    rewrite orb_true_iff. unfold pat_canada, pat_remote. cbn [foldr].
    rewrite !search_alt, !search_word. split.
    + intros H. repeat (destruct H as [H|H] || fail);
        (eexists; split; [|exact H]); mem_norm; tauto.
    + intros (kw & Hkw & H). revert Hkw. mem_norm. rewrite elem_of_nil.
      intros Hkw. repeat (destruct Hkw as [->|Hkw]); tauto.
  - by intros ->.
Qed.

End LocationMask.

(* ===================================================================== *)
(** * tracker.py: the request sent to Notion *)
(* ===================================================================== *)

Section NotionRequest.
Import Obj Tracker.

(** X22. The properties [create_notion_page] sends never hold an empty
    "Job URL" or an empty "Date Posted".  The URL is left out exactly when
    the job has no "job_url" key or an empty one; a [None] stored under
    the key is sent as the text "None".  A date is sent only when the job
    has a date that is true, whose text is none of "None", "NaT", "nan"
    and "", and that [pd.to_datetime] parsed. *)
Theorem page_properties_optional
    (sv : services) (j : job) (st rp cl : str) :
  let p := page_properties sv j st rp cl in
  Job_URL p <> Some [] /\ Date_Posted p <> Some []
  /\ (Job_URL p = None
      <-> j !! "job_url" = None \/ j !! "job_url" = Some (PStr []))
  /\ (j !! "job_url" = Some PNone -> Job_URL p = Some (txt "None"))
  /\ (forall d, Date_Posted p = Some d ->
        truthy (get j "date_posted") = true
        /\ (py_str (get j "date_posted")
            ∉ [txt "None"; txt "NaT"; txt "nan"; txt ""])
        /\ to_datetime sv (py_str (get j "date_posted")) = Ok d).
Proof.
  intros p. subst p. unfold page_properties. cbn [Job_URL Date_Posted].
  split; [|split; [|split; [|split]]].
  - unfold or_none. by destruct (py_str _).
  - by destruct (date_str_of sv j) as [[|c d]|].
  - unfold or_none, get_or.
    destruct (j !! "job_url") as [[[|c u]| |]|]; simpl;
      (split; [intros H; first [discriminate | by left | by right]
              | by intros [?|?]]).
  - intros H. unfold get_or. by rewrite H.
  - intros d Hd. unfold date_str_of in Hd.
    destruct (truthy (get j "date_posted")); [|done]. simpl in Hd.
    destruct (bool_decide _) eqn:Hb; [done|].
    apply bool_decide_eq_false in Hb. simpl in Hd.
    destruct (to_datetime sv _) as [[|c d']|]; [done| |done].
    by injection Hd as <-.
Qed.

End NotionRequest.
